(** * Component-documentation extractor and lookup tools: a shallow embedding

    The development follows [src/index.ts]: the Markdown extraction pipeline
    ([extractSection], [extractFirstTable], [splitRowPreservingEscapedPipes],
    [parseMarkdownTable], the three table interpreters,
    [parseMultiComponentDoc], [processMarkdownFile]), the persistence step
    [processComponent], and the three lookup tools.

    JavaScript strings are sequences of UTF-16 code units; they are modelled
    as [list N].  Regular expressions of the source are written out as the
    list functions they denote. *)

From Stdlib Require Import List NArith ZArith Ascii String Bool Lia.
From Stdlib Require DecimalString.
From stdpp Require Import base option list gmap.
Import ListNotations.

Local Open Scope N_scope.
Local Open Scope list_scope.

(** ** JavaScript strings *)

Module Js.

(** A string value: its UTF-16 code units. *)
Abbreviation str := (list N).

(** Code units of a code point (a surrogate pair above the basic plane). *)
Definition units_of_code_point (cp : N) : str :=
  if cp <? 65536 then [cp]
  else [55296 + (cp - 65536) / 1024; 56320 + (cp - 65536) mod 1024].

(** String literals of this file are written in UTF-8; [decode] reads the
    bytes of one into the code units JavaScript holds for the same text. *)
Fixpoint decode (need : nat) (acc : N) (s : string) : str :=
  match s with
  | EmptyString => []
  | String a t =>
      let b := N_of_ascii a in
      match need with
      | O =>
          if b <? 128 then b :: decode 0 0 t
          else if b <? 224 then decode 1 (N.land b 31) t
          else if b <? 240 then decode 2 (N.land b 15) t
          else decode 3 (N.land b 7) t
      | S k =>
          let acc' := acc * 64 + N.land b 63 in
          match k with
          | O => units_of_code_point acc' ++ decode 0 0 t
          | S _ => decode k acc' t
          end
      end
  end.

Definition lit (s : string) : str := decode 0 0 s.
Arguments lit : simpl never.

Definition eqb (a b : str) : bool := bool_decide (a = b).

(** *** White space and line terminators (ECMAScript WhiteSpace and
    LineTerminator; the class [\s] of regular expressions and the characters
    removed by [trim]) *)

Definition isLineTerminator (c : N) : bool :=
  (c =? 10) || (c =? 13) || (c =? 8232) || (c =? 8233).

Definition isWhiteSpace (c : N) : bool :=
  (c =? 9) || (c =? 11) || (c =? 12) || (c =? 32) || (c =? 160)
  || (c =? 5760) || ((8192 <=? c) && (c <=? 8202)) || (c =? 8239)
  || (c =? 8287) || (c =? 12288) || (c =? 65279) || isLineTerminator c.

Fixpoint dropWhile (p : N -> bool) (s : str) : str :=
  match s with
  | [] => []
  | c :: t => if p c then dropWhile p t else s
  end.

(** [String.prototype.trimStart], [trimEnd] and [trim]. *)
Definition trimStart (s : str) : str := dropWhile isWhiteSpace s.

Fixpoint trimEnd (s : str) : str :=
  match s with
  | [] => []
  | c :: t =>
      match trimEnd t with
      | [] => if isWhiteSpace c then [] else [c]
      | r => c :: r
      end
  end.

Definition trim (s : str) : str := trimStart (trimEnd s).

(** [s.startsWith(p)]. *)
Fixpoint startsWith (s p : str) : bool :=
  match p, s with
  | [], _ => true
  | _ :: _, [] => false
  | x :: p', c :: s' => (c =? x) && startsWith s' p'
  end.

(** [s.includes(w)]. *)
Fixpoint includes (s w : str) : bool :=
  startsWith s w || match s with [] => false | _ :: t => includes t w end.

(** Puts one more code unit in front of the first piece of a split. *)
Definition consFirst (c : N) (pieces : list str) : list str :=
  match pieces with
  | [] => [[c]]
  | h :: r => (c :: h) :: r
  end.

(** [s.split(sep)] for a separator of one code unit. *)
Fixpoint split (sep : N) (s : str) : list str :=
  match s with
  | [] => [[]]
  | c :: t => if c =? sep then [] :: split sep t else consFirst c (split sep t)
  end.

(** [md.split(/\r?\n/)]: a line ends at a line feed; a carriage return
    directly before it belongs to the separator. *)
Fixpoint splitLines (s : str) : list str :=
  match s with
  | [] => [[]]
  | c :: t =>
      if c =? 10 then [] :: splitLines t
      else match t with
           | d :: t' =>
               if (c =? 13) && (d =? 10) then [] :: splitLines t'
               else consFirst c (splitLines t)
           | [] => consFirst c (splitLines t)
           end
  end.

(** [a.indexOf(x)] on an array of strings: the first position holding [x],
    or [-1]. *)
Fixpoint indexOf (x : str) (a : list str) : Z :=
  match a with
  | [] => (-1)%Z
  | y :: r =>
      if eqb y x then 0%Z
      else let i := indexOf x r in if (i <? 0)%Z then (-1)%Z else (i + 1)%Z
  end.

(** [a[i]] for an integer [i]: [undefined] (here [None]) outside the array,
    in particular at [-1]. *)
Definition at_ (a : list str) (i : Z) : option str :=
  if (i <? 0)%Z then None else nth_error a (Z.to_nat i).

(** [v || empty] for [v] a string or [undefined]: the empty string is falsy, so
    the result is [v] when it is a string and the empty string otherwise. *)
Definition orEmpty (v : option str) : str :=
  match v with Some s => s | None => [] end.

(** [a.join(sep)]. *)
Fixpoint join (sep : str) (a : list str) : str :=
  match a with
  | [] => []
  | [x] => x
  | x :: r => x ++ sep ++ join sep r
  end.

(** *** Case conversion

    [toLowerCase] and [toUpperCase] follow the Unicode case tables, which are
    not reproduced here.  The development is parametric in the two functions
    and uses two facts about them: on text made of Basic Latin and CJK unified
    ideographs they act code unit by code unit, moving only the letters A-Z
    and a-z; and lower-casing commutes with [trim] (white space has no case
    mapping and ends the context of every context-sensitive rule). *)

Definition isPlain (c : N) : bool :=
  (c <? 128) || ((19968 <=? c) && (c <=? 40959)).

Definition lowerUnit (c : N) : N :=
  if (65 <=? c) && (c <=? 90) then c + 32 else c.

Definition upperUnit (c : N) : N :=
  if (97 <=? c) && (c <=? 122) then c - 32 else c.

Class CaseMapping := {
  toLowerCase : str -> str;
  toUpperCase : str -> str;
  toLowerCase_plain :
    forall s, forallb isPlain s = true -> toLowerCase s = map lowerUnit s;
  toUpperCase_plain :
    forall s, forallb isPlain s = true -> toUpperCase s = map upperUnit s;
  toLowerCase_trim :
    forall s, toLowerCase (trim s) = trim (toLowerCase s)
}.

End Js.

Import Js.

(** ** Data model (the interfaces of the source) *)

Record ParsedPropRow := {
  prop_name : str;
  prop_type : str;
  prop_defaultValue : option str;   (* [None] is [null] *)
  prop_description : str;
  prop_required : bool
}.

Record ParsedEventRow := {
  event_name : str;
  event_params : str;
  event_description : str
}.

Record ParsedMethodRow := {
  method_name : str;
  method_params : str;
  method_returnType : str;
  method_description : str
}.

Record ComponentDocJson := {
  component : str;
  props : list ParsedPropRow;
  events : list ParsedEventRow;
  methods : option (list ParsedMethodRow)   (* [None] is [undefined] *)
}.

(** [{ headers, rows }], the result of [parseMarkdownTable]. *)
Record MarkdownTable := {
  headers : list str;
  rows : list (list str)
}.

(** ** Sections and tables *)

Definition normalizeLine (line : str) : str := trimEnd line.

(** The loop of [extractSection]: lines are collected up to the first one
    whose trimmed text starts with three hashes and a space. *)
Fixpoint sectionBody (rest : list str) : list str :=
  match rest with
  | [] => []
  | line :: more =>
      if startsWith (trim line) (lit "### ") then [] else line :: sectionBody more
  end.

(** [a.findIndex(p)]; [None] is [-1]. *)
Fixpoint findIndex {A} (p : A -> bool) (a : list A) : option nat :=
  match a with
  | [] => None
  | x :: r => if p x then Some O else option_map S (findIndex p r)
  end.

(** The test [/\|\s*-{2,}/.test(s)]: somewhere a pipe, any white space, and
    at least two dashes. *)
Fixpoint hasSeparator (s : str) : bool :=
  match s with
  | [] => false
  | c :: t =>
      ((c =? 124) && startsWith (dropWhile isWhiteSpace t) (lit "--"))
      || hasSeparator t
  end.

(** The header test of [extractFirstTable] on a trimmed line. *)
Definition isHeaderCandidate (t : str) : bool :=
  startsWith t (lit "|") || (includes t (lit "|") && negb (startsWith t (lit "###"))).

(** First loop of [extractFirstTable]: the index [start]. *)
Fixpoint findTableStart (lines : list str) : option nat :=
  match lines with
  | [] => None
  | l :: rest =>
      if isHeaderCandidate (trim l)
         && match rest with next :: _ => hasSeparator next | [] => false end
      then Some O
      else option_map S (findTableStart rest)
  end.

(** Second loop of [extractFirstTable], from [start] on. *)
Fixpoint collectTable (lines : list str) : list str :=
  match lines with
  | [] => []
  | t :: rest =>
      if negb (includes t (lit "|")) then []
      else if eqb (trim t) [] then []
      else t :: match rest with
                | next :: _ => if eqb (trim next) [] then [] else collectTable rest
                | [] => []
                end
  end.

Definition extractFirstTable (sectionLines : list str) : list str :=
  let lines := map normalizeLine sectionLines in
  match findTableStart lines with
  | None => []
  | Some start => collectTable (drop start lines)
  end.

(** ** Row tokenizer *)

Definition PLACEHOLDER : str := lit "__ESCAPED_PIPE__".
Arguments PLACEHOLDER : simpl never.

(** [row.replace(/\\\|/g, PLACEHOLDER)]. *)
Fixpoint escapePipes (row : str) : str :=
  match row with
  | [] => []
  | c :: t =>
      match t with
      | d :: t' =>
          if (c =? 92) && (d =? 124) then PLACEHOLDER ++ escapePipes t'
          else c :: escapePipes t
      | [] => [c]
      end
  end.

(** A replacement anchored at the very start, for a pattern of one code
    unit: [.replace(/^\|/, empty)] and the first alternative of [/^-|-$/g]. *)
Definition dropFirstIf (x : N) (s : str) : str :=
  match s with
  | c :: t => if c =? x then t else s
  | [] => []
  end.

(** A replacement anchored at the very end: [.replace(/\|$/, empty)] and the
    second alternative of [/^-|-$/g]. *)
Fixpoint dropLastIf (x : N) (s : str) : str :=
  match s with
  | [] => []
  | c :: t =>
      match t with
      | [] => if c =? x then [] else [c]
      | _ :: _ => c :: dropLastIf x t
      end
  end.

Definition stripLeadingPipe (s : str) : str := dropFirstIf 124 s.
Definition stripTrailingPipe (s : str) : str := dropLastIf 124 s.

(** [.replace(new RegExp(PLACEHOLDER, "g"), "|")], scanning from the left:
    [skip] counts the code units of a match that are still to be passed. *)
Fixpoint restoreFrom (skip : nat) (s : str) : str :=
  match s with
  | [] => []
  | c :: t =>
      match skip with
      | S k => restoreFrom k t
      | O =>
          if startsWith s PLACEHOLDER then 124 :: restoreFrom 15 t
          else c :: restoreFrom 0 t
      end
  end.

Definition restorePipes (s : str) : str := restoreFrom 0 s.

Definition splitRowPreservingEscapedPipes (row : str) : list str :=
  let replaced := escapePipes row in
  map (fun p => restorePipes (trim p))
      (split 124 (stripTrailingPipe (stripLeadingPipe replaced))).

(** ** The extraction pipeline *)

Section Extraction.
Context `{CM : CaseMapping}.

(** The [findIndex] test of [extractSection]. *)
Definition isSectionHeading (heading line : str) : bool :=
  startsWith (toLowerCase (trim line)) (lit "### " ++ toLowerCase heading).

Definition extractSection (lines : list str) (heading : str) : list str :=
  match findIndex (isSectionHeading heading) lines with
  | None => []
  | Some startIdx => sectionBody (drop (S startIdx) lines)
  end.

(** *** Header-mapped interpreters *)

Definition parseMarkdownTable (tableLines : list str) : MarkdownTable :=
  if (length tableLines <? 2)%nat then {| headers := []; rows := [] |}
  else
    let headerLine := orEmpty (nth_error tableLines 0) in
    let dataRows :=
      List.filter (fun l => (0 <? length (trim l))%nat && includes l (lit "|"))
                  (drop 2 tableLines) in
    {| headers := map toLowerCase (splitRowPreservingEscapedPipes headerLine);
       rows := map splitRowPreservingEscapedPipes dataRows |}.

(** [(cols[idx] || empty).trim()]. *)
Definition cell (cols : list str) (idx : Z) : str := trim (orEmpty (at_ cols idx)).

(** The body of the [forEach] of [parsePropsTable]. *)
Definition propRow (hs : list str) (cols : list str) : ParsedPropRow :=
  let nameIdx := indexOf (lit "名称") hs in
  let typeIdx := indexOf (lit "类型") hs in
  let defaultIdx := indexOf (lit "默认值") hs in
  let descIdx := indexOf (lit "说明") hs in
  let requiredIdx := indexOf (lit "必传") hs in
  let defaultValueRaw := cell cols defaultIdx in
  let requiredRaw := toUpperCase (cell cols requiredIdx) in
  {| prop_name := cell cols nameIdx;
     prop_type := cell cols typeIdx;
     prop_defaultValue :=
       if eqb defaultValueRaw (lit "-") || eqb defaultValueRaw []
       then None else Some defaultValueRaw;
     prop_description := cell cols descIdx;
     prop_required := eqb requiredRaw (lit "Y") || eqb requiredRaw (lit "YES") |}.

Definition parsePropsTable (tableLines : list str) : list ParsedPropRow :=
  let t := parseMarkdownTable tableLines in
  if (length (headers t) =? 0)%nat then [] else map (propRow (headers t)) (rows t).

Definition eventRow (hs : list str) (cols : list str) : ParsedEventRow :=
  let nameIdx := indexOf (lit "名称") hs in
  let paramsIdx := indexOf (lit "参数") hs in
  let descIdx := indexOf (lit "描述") hs in
  {| event_name := cell cols nameIdx;
     event_params := cell cols paramsIdx;
     event_description := cell cols descIdx |}.

Definition parseEventsTable (tableLines : list str) : list ParsedEventRow :=
  let t := parseMarkdownTable tableLines in
  if (length (headers t) =? 0)%nat then [] else map (eventRow (headers t)) (rows t).

Definition methodRow (hs : list str) (cols : list str) : ParsedMethodRow :=
  let nameIdx := indexOf (lit "名称") hs in
  let paramsIdx := indexOf (lit "参数") hs in
  let returnIdx := indexOf (lit "返回值") hs in
  let descIdx := indexOf (lit "描述") hs in
  {| method_name := cell cols nameIdx;
     method_params := cell cols paramsIdx;
     method_returnType := cell cols returnIdx;
     method_description := cell cols descIdx |}.

Definition parseMethodsTable (tableLines : list str) : list ParsedMethodRow :=
  let t := parseMarkdownTable tableLines in
  if (length (headers t) =? 0)%nat then [] else map (methodRow (headers t)) (rows t).

(** *** Document dispatcher *)

(** [.replace(/^\s*###\s*/i, empty)]: at the very start, white space, three
    hashes and the white space after them. *)
Definition stripHeadingMarker (s : str) : str :=
  let r := dropWhile isWhiteSpace s in
  if startsWith r (lit "###") then dropWhile isWhiteSpace (drop 3 r) else s.

(** [Props] under the flag [i]: without the flag [u] a code unit matches a
    letter of the pattern when both have the same simple upper case, and a
    code unit outside Basic Latin never matches a Basic Latin letter; so the
    word is matched by its upper and lower case Basic Latin spellings only. *)
Definition startsWithProps (s : str) : bool :=
  startsWith (map lowerUnit s) (lit "props").

(** [.replace(/\s+Props.*/i, empty)]: the leftmost run of white space that is
    followed by the word is removed with the word and everything after it up
    to the next line terminator. *)
Fixpoint stripPropsSuffix (s : str) : str :=
  match s with
  | [] => []
  | c :: t =>
      if isWhiteSpace c && startsWithProps (dropWhile isWhiteSpace t)
      then dropWhile (fun d => negb (isLineTerminator d))
                     (drop 5 (dropWhile isWhiteSpace t))
      else c :: stripPropsSuffix t
  end.

(** The component name of a heading line (lines 367 and 427). *)
Definition componentName (line : str) : str :=
  trim (stripPropsSuffix (stripHeadingMarker line)).

(** The three sections of one component and their tables: the block shared
    by [parseMultiComponentDoc] (lines 370-383) and the single-component
    branches (lines 429-442 and 468-481). *)
Definition componentDoc (lines : list str) (name : str) : ComponentDocJson :=
  let propsSection := extractSection lines (name ++ lit " Props") in
  let eventsSection := extractSection lines (name ++ lit " Events") in
  let methodsSection :=
    extractSection lines (name ++ lit "InstanceFunctions 组件实例方法") in
  let propsTable := extractFirstTable propsSection in
  let eventsTable := extractFirstTable eventsSection in
  let methodsTable := extractFirstTable methodsSection in
  {| component := name;
     props := parsePropsTable propsTable;
     events := parseEventsTable eventsTable;
     methods := if (0 <? length methodsTable)%nat
                then Some (parseMethodsTable methodsTable) else None |}.

(** The heading test of [parseMultiComponentDoc], on a trimmed line. *)
Definition isPropsHeadingText (line : str) : bool :=
  startsWith (toLowerCase line) (lit "### ")
  && includes (toLowerCase line) (lit "props").

Definition parseMultiComponentDoc (lines : list str) : list ComponentDocJson :=
  let componentHeadings := List.filter isPropsHeadingText (map trim lines) in
  map (fun line => componentDoc lines (componentName line)) componentHeadings.

(** The heading count of [processMarkdownFile] (line 412). *)
Definition isPropsHeading (l : str) : bool :=
  startsWith (toLowerCase (trim l)) (lit "### ")
  && includes (toLowerCase (trim l)) (lit "props").

(** The [find] test of the single-component branch (line 426). *)
Definition isPropsHeadingLine (l : str) : bool :=
  startsWith (toLowerCase (trim l)) (lit "### ")
  && includes (toLowerCase l) (lit "props").

End Extraction.

(** ** Persistence: component files and the index *)

Record IndexEntry := {
  entry_name : str;
  entry_file : str
}.

(** What a file of the data directory holds, as [JSON.parse] sees it. *)
Inductive FileContent :=
  | ComponentFile (json : ComponentDocJson)
      (* [JSON.stringify] of a component document: an object with the keys
         component, props, events and (when present) methods *)
  | IndexFile (components : list IndexEntry)
      (* an object whose key [components] holds an array of entries *)
  | OtherJson
      (* any other JSON text: [parsed && Array.isArray(parsed.components)]
         is false *)
  | InvalidJson.
      (* [JSON.parse] throws *)

(** The files below the project root, by their path relative to it. *)
Abbreviation Store := (gmap (list N) FileContent).

(** [.replace(/\s+/g, "-")] and [.replace(/-+/g, "-")]: every maximal run of
    code units satisfying [p] becomes one dash; [inRun] tells that the
    previous code unit belonged to a run. *)
Fixpoint replaceRuns (p : N -> bool) (inRun : bool) (s : str) : str :=
  match s with
  | [] => []
  | c :: t =>
      if p c then (if inRun then replaceRuns p true t else 45 :: replaceRuns p true t)
      else c :: replaceRuns p false t
  end.

(** The class [[a-zA-Z0-9\-_.]]. *)
Definition isSafeChar (c : N) : bool :=
  ((97 <=? c) && (c <=? 122)) || ((65 <=? c) && (c <=? 90))
  || ((48 <=? c) && (c <=? 57)) || (c =? 45) || (c =? 95) || (c =? 46).

(** [.replace(/^-|-$/g, empty)]: a dash at the very start is removed, and a
    dash at the very end of what follows it. *)
Definition stripEdgeDashes (s : str) : str := dropLastIf 45 (dropFirstIf 45 s).

(** [safeName] of [processComponent]. *)
Definition safeName (name : str) : str :=
  let s1 := trim name in
  let s2 := replaceRuns isWhiteSpace false s1 in
  let s3 := map (fun c => if isSafeChar c then c else 45) s2 in
  let s4 := replaceRuns (N.eqb 45) false s3 in
  let s5 := stripEdgeDashes s4 in
  match s5 with [] => lit "unknown" | _ :: _ => s5 end.

(** [path.join("src", "data", "components", safeName + ".json")] on a POSIX
    system.  The last segment ends in [.json] and holds no slash, so the
    normalisation of [path.join] leaves the segments as they are. *)
Definition componentFileRel (name : str) : str :=
  lit "src/data/components/" ++ safeName name ++ lit ".json".

Definition indexFileRel : str := lit "src/data/components/index.json".

(** [.replace(/\\/g, "/")]. *)
Definition slashes (s : str) : str := map (fun c => if c =? 92 then 47 else c) s.

Section Persistence.
Context `{CM : CaseMapping}.

(** Reading the index (lines 540-552): every failure leaves the empty list. *)
Definition readIndex (st : Store) : list IndexEntry :=
  match st !! indexFileRel with
  | Some (IndexFile components) => components
  | _ => []
  end.

(** The test of [some] (line 554). *)
Definition sameName (json : ComponentDocJson) (e : IndexEntry) : bool :=
  eqb (toLowerCase (orEmpty (Some (entry_name e)))) (toLowerCase (component json)).

(** [processComponent]: the component file is written, then the index is
    read and, when no entry has the name, extended and written back.  The
    messages on the error stream are not modelled. *)
Definition processComponent (json : ComponentDocJson) (st : Store) : Store :=
  let st1 := <[componentFileRel (component json) := ComponentFile json]> st in
  let components := readIndex st1 in
  if existsb (sameName json) components then st1
  else
    let entry := {| entry_name := component json;
                    entry_file := slashes (componentFileRel (component json)) |} in
    <[indexFileRel := IndexFile (components ++ [entry])]> st1.

(** [processMarkdownFile], from the text read from the file: the documents
    returned and the store after persisting each of them in order. *)
Definition processMarkdownFile (md : str) (st : Store)
  : list ComponentDocJson * Store :=
  let lines := splitLines md in
  let componentHeadings := List.filter isPropsHeading lines in
  if (1 <? length componentHeadings)%nat then
    let components := parseMultiComponentDoc lines in
    (components, fold_left (fun s json => processComponent json s) components st)
  else
    let name :=
      match List.find isPropsHeadingLine lines with
      | Some ((_ :: _) as propsHeadingLine) => componentName propsHeadingLine
      | _ => lit "Unknown"   (* [undefined], or the empty string, is falsy *)
      end in
    let json := componentDoc lines name in
    ([json], processComponent json st).

End Persistence.

(** ** The lookup tools *)

(** A JavaScript value as [JSON.parse] returns it or as a tool receives it.
    Numbers are modelled by integers: the tools inspect a number only for
    being zero. *)
#[warnings="-register-all"] Inductive Value :=
  | VUndefined
  | VNull
  | VBool (b : bool)
  | VNumber (n : Z)
  | VString (s : str)
  | VArray (items : list Value)
  | VObject (fields : list (str * Value)).   (* in property order *)

(** The outcome of evaluating code that may throw.  Every value the tools
    throw or catch is an [Error]; it is represented by its message. *)
Inductive Completion (A : Type) :=
  | Normal (a : A)
  | Throw (message : str).
Arguments Normal {A} a.
Arguments Throw {A} message.

(** Sequencing: a throw ends the evaluation.  With this instance the code
    below is written [x ← c; k]. *)
#[export] Instance Completion_bind : MBind Completion := fun A B k c =>
  match c with
  | Normal a => k a
  | Throw m => Throw m
  end.

(** [try { body } catch (e) { handler }]. *)
Definition tryCatch {A} (body : Completion A) (handler : str -> Completion A)
  : Completion A :=
  match body with
  | Normal a => Normal a
  | Throw m => handler m
  end.

(** What the tools use of the platform: the file system, [JSON.parse],
    [path.resolve], the project root computed by [getProjectRoot], the text
    of a value inside a template literal, and the message of the
    [TypeError] the engine throws. *)
Record Env := {
  existsSync : str -> bool;
  readFileSync : str -> Completion str;
  JSON_parse : str -> Completion Value;
  resolve : list str -> str;
  projectRoot : str;
  toText : Value -> str;
  typeError : str
}.

(** A tool result [{ content: [{ type: 'text', text }] }] where [text] is
    [JSON.stringify(payload, null, 2)]. *)
Inductive ToolResult :=
  | TextResult (payload : Value).

Fixpoint lookupField (k : str) (fields : list (str * Value)) : option Value :=
  match fields with
  | [] => None
  | (k', v) :: r => if eqb k' k then Some v else lookupField k r
  end.

(** [!v]. *)
Definition isFalsy (v : Value) : bool :=
  match v with
  | VUndefined | VNull => true
  | VBool b => negb b
  | VNumber n => (n =? 0)%Z
  | VString s => eqb s []
  | VArray _ | VObject _ => false
  end.

(** Decimal text of an array index. *)
Definition decimal (n : nat) : str :=
  lit (DecimalString.NilEmpty.string_of_uint (Nat.to_uint n)).

(** [Object.keys(v)]. *)
Definition objectKeys (v : Value) : list str :=
  match v with
  | VObject fields => map fst fields
  | VArray items => map decimal (seq 0 (length items))
  | VString s => map decimal (seq 0 (length s))
  | _ => []
  end.

Section Tools.
Context `{CM : CaseMapping} (env : Env).

(** [v.k], for a key [k] that is not a built-in property of arrays,
    strings, numbers or booleans. *)
Definition getField (k : str) (v : Value) : Completion Value :=
  match v with
  | VUndefined | VNull => Throw (typeError env)
  | VObject fields =>
      Normal (match lookupField k fields with Some x => x | None => VUndefined end)
  | _ => Normal VUndefined
  end.

(** [v.toLowerCase()]: a method of strings only. *)
Definition callToLowerCase (v : Value) : Completion str :=
  match v with
  | VString s => Normal (toLowerCase s)
  | _ => Throw (typeError env)
  end.

(** The two candidate places of the index. *)
Definition indexCandidates : list str :=
  [ resolve env [projectRoot env; lit "build"; lit "data"; lit "components"; lit "index.json"];
    resolve env [projectRoot env; lit "src"; lit "data"; lit "components"; lit "index.json"] ].

(** [candidates.find(p => fs.existsSync(p))], tested with [!]: the empty
    path is falsy and counts as no path. *)
Definition findExisting (candidates : list str) : option str :=
  match List.find (existsSync env) candidates with
  | Some ((_ :: _) as p) => Some p
  | _ => None
  end.

Definition indexNotFound : str :=
  lit "Index file not found. Candidates: " ++ join (lit ", ") indexCandidates.

(** [components.find(c => c.name.toLowerCase() === componentName.toLowerCase())]
    on the items of an array. *)
Fixpoint findEntry (componentName : Value) (items : list Value)
  : Completion (option Value) :=
  match items with
  | [] => Normal None
  | c :: r =>
      name ← getField (lit "name") c;
      lowered ← callToLowerCase name;
      wanted ← callToLowerCase componentName;
      if eqb lowered wanted then Normal (Some c) else findEntry componentName r
  end.

(** [v.find(...)] and [v.map(...)] exist on arrays only. *)
Definition asArray (v : Value) : Completion (list Value) :=
  match v with
  | VArray items => Normal items
  | _ => Throw (typeError env)
  end.

(** [file.replace(/^src\//, "build/")]. *)
Definition toBuildPath (file : str) : str :=
  if startsWith file (lit "src/") then lit "build/" ++ drop 4 file else file.

Definition loadComponentData (componentName : Value) : Completion Value :=
  match findExisting indexCandidates with
  | None => Throw indexNotFound
  | Some indexFile =>
      raw ← readFileSync env indexFile;
      indexJson ← JSON_parse env raw;
      components ← getField (lit "components") indexJson;
      items ← asArray components;
      found ← findEntry componentName items;
      match found with
      | None =>
          Throw (lit "Component '" ++ toText env componentName ++ lit "' not found")
      | Some entry =>
          fileValue ← getField (lit "file") entry;
          match fileValue with
          | VString file =>
              let fileCandidates :=
                [ resolve env [projectRoot env; toBuildPath file];
                  resolve env [projectRoot env; file] ] in
              match findExisting fileCandidates with
              | None =>
                  Throw (lit "Component file not found for '" ++ toText env componentName
                         ++ lit "'. Candidates: " ++ join (lit ", ") fileCandidates)
              | Some abs =>
                  txt ← readFileSync env abs;
                  JSON_parse env txt
              end
          | _ => Throw (typeError env)   (* [replace] is a method of strings *)
          end
      end
  end.

(** [{ name: entry.name, file: entry.file }]. *)
Definition entryInfo (entry : Value) : Completion Value :=
  name ← getField (lit "name") entry;
  file ← getField (lit "file") entry;
  Normal (VObject [(lit "name", name); (lit "file", file)]).

Fixpoint mapEntries (items : list Value) : Completion (list Value) :=
  match items with
  | [] => Normal []
  | e :: r =>
      x ← entryInfo e;
      xs ← mapEntries r;
      Normal (x :: xs)
  end.

Definition errorPayload (fields : list (str * Value)) (message : str) : ToolResult :=
  TextResult (VObject (fields ++ [(lit "error", VString message)])).

Definition getComponentList : Completion ToolResult :=
  tryCatch
    (match findExisting indexCandidates with
     | None => Normal (errorPayload [(lit "components", VArray [])] indexNotFound)
     | Some indexFile =>
         raw ← readFileSync env indexFile;
         indexJson ← JSON_parse env raw;
         components ← getField (lit "components") indexJson;
         items ← asArray components;
         infos ← mapEntries items;
         Normal (TextResult (VObject [ (lit "components", VArray infos);
                                       (lit "total", VNumber (Z.of_nat (length infos))) ]))
     end)
    (fun message =>
       Normal (errorPayload [(lit "components", VArray [])]
                            (lit "Failed to get component list: " ++ message))).

(** [args?.componentName]. *)
Definition componentNameOf (args : Value) : Value :=
  match args with
  | VObject fields =>
      match lookupField (lit "componentName") fields with
      | Some v => v
      | None => VUndefined
      end
  | _ => VUndefined
  end.

Definition missingName (args : Value) : str :=
  lit "componentName parameter is required. Available args: "
  ++ join (lit ", ") (objectKeys (if isFalsy args then VObject [] else args)).

(** [v || []]. *)
Definition orEmptyArray (v : Value) : Value := if isFalsy v then VArray [] else v.

(** [v?.length || 0]. *)
Definition lengthOrZero (v : Value) : Value :=
  match v with
  | VArray items => VNumber (Z.of_nat (length items))
  | VString s => VNumber (Z.of_nat (length s))
  | VObject fields =>
      match lookupField (lit "length") fields with
      | Some n => if isFalsy n then VNumber 0 else n
      | None => VNumber 0
      end
  | _ => VNumber 0
  end.

(** The body shared by [getComponentProps] and [getComponentEvents]: [key]
    is [props] or [events], [what] the word in the failure message. *)
Definition getComponentPart (key what : str) (args : Value) : Completion ToolResult :=
  tryCatch
    (let componentName := componentNameOf args in
     if isFalsy componentName then Normal (errorPayload [] (missingName args))
     else
       data ← loadComponentData componentName;
       comp ← getField (lit "component") data;
       part ← getField key data;
       Normal (TextResult (VObject [ (lit "component", comp);
                                     (key, orEmptyArray part);
                                     (lit "total", lengthOrZero part) ])))
    (fun message =>
       Normal (errorPayload [] (lit "Failed to get component " ++ what ++ lit ": " ++ message))).

Definition getComponentProps (args : Value) : Completion ToolResult :=
  getComponentPart (lit "props") (lit "props") args.

Definition getComponentEvents (args : Value) : Completion ToolResult :=
  getComponentPart (lit "events") (lit "events") args.

End Tools.

(** * The vocabulary of the statements *)

(** ** Words and plain text *)

(** A word whose first and last code units are not white space. *)
Definition solid (w : str) : bool :=
  match w with
  | [] => false
  | c :: _ => negb (isWhiteSpace c) && negb (isWhiteSpace (List.last w 0))
  end.

(** Text in Basic Latin and CJK ideographs, where every case mapping is
    known. *)
Definition Plain (s : str) : Prop := Forall (fun c => isPlain c = true) s.
Definition PlainLines (ls : list str) : Prop := Forall Plain ls.

(** ** Rows and cells *)

(** Where two texts meet, an escape can only arise from a backslash at the
    end of the first and a pipe at the start of the second. *)
Definition meetsEscaped (a b : str) : bool :=
  (List.last a 0 =? 92) && startsWith b [124].

(** The source text of an escaped pipe: a backslash and a pipe. *)
Definition escapedPipe : str := [92; 124].

(** The text of one cell as it stands between two delimiters: replacing its
    escaped pipes leaves no pipe (every pipe in it is escaped), and it does
    not end in a backslash (the delimiter after it is not escaped). *)
Definition cellSource (c : str) : Prop :=
  existsb (N.eqb 124) (escapePipes c) = false /\ List.last c 0 <> 92.

(** The row holding the given cells, with a leading and a trailing pipe. *)
Definition rowOf (cells : list str) : str := [124] ++ join [124] cells ++ [124].

(** The value the tokenizer gives to one cell text. *)
Definition cellValue (c : str) : str := restorePipes (trim (escapePipes c)).

(** ** Sections and tables as the specification words them *)

(** The section as the specification words it, to be compared with
    [extractSection]: it starts after the line [extractSection] finds, and
    ends before the next line that carries a heading marker of the same or a
    coarser level, that is, one, two or three hashes and a space. *)
Module SectionSpec.

Definition carriesHeadingMarkerUpTo3 (line : str) : bool :=
  let t := trim line in
  startsWith t (lit "# ") || startsWith t (lit "## ") || startsWith t (lit "### ").

Fixpoint bodyUpToHeading (rest : list str) : list str :=
  match rest with
  | [] => []
  | line :: more =>
      if carriesHeadingMarkerUpTo3 line then [] else line :: bodyUpToHeading more
  end.

Definition section `{CM : CaseMapping} (lines : list str) (label : str) : list str :=
  match findIndex (isSectionHeading label) lines with
  | None => []
  | Some i => bodyUpToHeading (drop (S i) lines)
  end.

End SectionSpec.

(** The separator as the specification words it, to be compared with
    [hasSeparator]: a run of at least two dashes between pipe delimiters,
    read generously as a pipe, later two dashes, later a pipe. *)
Module SeparatorSpec.

Fixpoint dashesThenPipe (s : str) : bool :=
  match s with
  | [] => false
  | _ :: t => (startsWith s (lit "--") && includes t (lit "|")) || dashesThenPipe t
  end.

Fixpoint dashRunBetweenPipes (s : str) : bool :=
  match s with
  | [] => false
  | c :: t => ((c =? 124) && dashesThenPipe t) || dashRunBetweenPipes t
  end.

End SeparatorSpec.

(** A line that the second loop of [extractFirstTable] keeps. *)
Definition isTableRow (l : str) : bool :=
  includes l (lit "|") && negb (eqb (trim l) []).

(** A header line followed by a separator line, at index [i]. *)
Definition headerPairAt (lines : list str) (i : nat) : Prop :=
  exists h sep,
    lines !! i = Some h /\ lines !! S i = Some sep
    /\ isHeaderCandidate (trim h) = true /\ hasSeparator sep = true.

(** ** Failures of the lookup tools *)

Section ToolFailureCases.
Context `{CM : CaseMapping} (env : Env).

(** The result is a text result whose payload has a field [error] holding a
    message. *)
Definition carriesError (c : Completion ToolResult) : Prop :=
  exists fields message,
    c = Normal (TextResult (VObject fields))
    /\ lookupField (lit "error") fields = Some (VString message).

(** The ways in which reading the index can fail. *)
Inductive IndexFailure : Prop :=
  | IndexMissing :
      findExisting env (indexCandidates env) = None -> IndexFailure
  | IndexUnreadable f m :
      findExisting env (indexCandidates env) = Some f ->
      readFileSync env f = Throw m -> IndexFailure
  | IndexMalformed f raw m :
      findExisting env (indexCandidates env) = Some f ->
      readFileSync env f = Normal raw ->
      JSON_parse env raw = Throw m -> IndexFailure.

(** The index was read, and [entries] is its array of components. *)
Definition indexEntries (entries : list Value) : Prop :=
  exists f raw fields,
    findExisting env (indexCandidates env) = Some f
    /\ readFileSync env f = Normal raw
    /\ JSON_parse env raw = Normal (VObject fields)
    /\ lookupField (lit "components") fields = Some (VArray entries).

(** The entry of the index for the name was found, and [candidates] are the
    two places where its file is looked for. *)
Definition entryFiles (name : Value) (candidates : list str) : Prop :=
  exists entries entry file,
    indexEntries entries
    /\ findEntry env name entries = Normal (Some entry)
    /\ getField env (lit "file") entry = Normal (VString file)
    /\ candidates = [ resolve env [projectRoot env; toBuildPath file];
                      resolve env [projectRoot env; file] ].

(** The ways in which looking a component up can fail. *)
Inductive LookupFailure (name : Value) : Prop :=
  | NoIndex : IndexFailure -> LookupFailure name
  | ComponentNotFound entries :
      indexEntries entries ->
      findEntry env name entries = Normal None -> LookupFailure name
  | ComponentFileNotFound candidates :
      entryFiles name candidates ->
      findExisting env candidates = None -> LookupFailure name
  | ComponentFileUnreadable candidates abs m :
      entryFiles name candidates ->
      findExisting env candidates = Some abs ->
      readFileSync env abs = Throw m -> LookupFailure name
  | ComponentFileMalformed candidates abs txt m :
      entryFiles name candidates ->
      findExisting env candidates = Some abs ->
      readFileSync env abs = Normal txt ->
      JSON_parse env txt = Throw m -> LookupFailure name.

End ToolFailureCases.

(** ** Sample documents, stores and projects *)

Definition buttonDoc : str :=
  join [10] [ lit "### Button Props";
              lit "| 名称 | 类型 | 默认值 | 说明 | 必传 |";
              lit "| -- | -- | -- | -- | -- |";
              lit "| theme | string | default | 按钮风格 | N |" ].

Definition coarserHeadingDoc : list str :=
  [ lit "### A Props"; lit "first"; lit "## Usage"; lit "second" ].

Definition dashDefaultTable : list str :=
  [ lit "| 名称 | 类型 | 默认值 | 说明 | 必传 |";
    lit "| -- | -- | -- | -- | -- |";
    lit "| size | string | - | 尺寸 | N |" ].

Definition indexNamedDoc : ComponentDocJson :=
  {| component := lit "index"; props := []; events := []; methods := None |}.

Definition indexedStore : Store :=
  {[ indexFileRel :=
       IndexFile [ {| entry_name := lit "index";
                      entry_file := lit "docs/generated/index.json" |};
                   {| entry_name := lit "Button";
                      entry_file := lit "src/data/components/Button.json" |} ] ]}.

Definition buttonAgain : ComponentDocJson :=
  {| component := lit "BUTTON"; props := []; events := []; methods := None |}.

Definition buttonStore : Store :=
  {[ indexFileRel :=
       IndexFile [ {| entry_name := lit "Button";
                      entry_file := lit "legacy/Button.json" |} ] ]}.

Definition demoIndex : Value :=
  VObject [ (lit "components",
             VArray [ VObject [ (lit "name", VString (lit "Button"));
                                (lit "file", VString (lit "src/data/components/Button.json")) ] ]) ].

Definition demoEnv : Env := {|
  existsSync := fun p => eqb p (lit "/srv/src/data/components/index.json");
  readFileSync := fun p =>
    if eqb p (lit "/srv/src/data/components/index.json") then Normal (lit "index text")
    else Throw (lit "ENOENT: no such file or directory");
  JSON_parse := fun text =>
    if eqb text (lit "index text") then Normal demoIndex
    else Throw (lit "Unexpected token");
  resolve := join (lit "/");
  projectRoot := lit "/srv";
  toText := fun v => match v with VString s => s | _ => lit "[object Object]" end;
  typeError := lit "TypeError"
|}.

(** * Facts *)

Lemma eqb_eq a b : eqb a b = true <-> a = b.
Proof. unfold eqb. rewrite bool_decide_eq_true. reflexivity. Qed.

(** ** A case mapping to compute with *)

Lemma isWhiteSpace_lowerUnit c : isWhiteSpace (lowerUnit c) = isWhiteSpace c.
Proof.
  unfold lowerUnit.
  destruct ((65 <=? c) && (c <=? 90)) eqn:E; [|reflexivity].
  apply andb_true_iff in E as [E1 E2].
  apply N.leb_le in E1, E2.
  assert (Hc : isWhiteSpace c = false).
  { unfold isWhiteSpace, isLineTerminator.
    repeat (apply orb_false_iff; split);
      try (apply N.eqb_neq; lia).
    apply andb_false_iff. left. apply N.leb_gt. lia. }
  rewrite Hc.
  unfold isWhiteSpace, isLineTerminator.
  repeat (apply orb_false_iff; split);
    try (apply N.eqb_neq; lia).
  apply andb_false_iff. left. apply N.leb_gt. lia.
Qed.

Lemma dropWhile_map_lowerUnit s :
  dropWhile isWhiteSpace (map lowerUnit s) = map lowerUnit (dropWhile isWhiteSpace s).
Proof.
  induction s as [|c t IH]; [reflexivity|].
  simpl. rewrite isWhiteSpace_lowerUnit.
  destruct (isWhiteSpace c); [exact IH | reflexivity].
Qed.

Lemma trimEnd_map_lowerUnit s :
  trimEnd (map lowerUnit s) = map lowerUnit (trimEnd s).
Proof.
  induction s as [|c t IH]; [reflexivity|].
  simpl. rewrite IH, isWhiteSpace_lowerUnit.
  destruct (trimEnd t); simpl; [destruct (isWhiteSpace c)|]; reflexivity.
Qed.

Lemma trim_map_lowerUnit s : trim (map lowerUnit s) = map lowerUnit (trim s).
Proof.
  unfold trim, trimStart. rewrite trimEnd_map_lowerUnit. apply dropWhile_map_lowerUnit.
Qed.

(** The mapping that moves the letters of Basic Latin and nothing else. *)
#[export] Instance basicLatinCase : CaseMapping | 100 := {|
  toLowerCase := map lowerUnit;
  toUpperCase := map upperUnit;
  toLowerCase_plain := fun s _ => eq_refl;
  toUpperCase_plain := fun s _ => eq_refl;
  toLowerCase_trim := fun s => eq_sym (trim_map_lowerUnit s)
|}.

(** ** Facts about strings *)

Section StringFacts.

Lemma startsWith_nil_r s : startsWith s [] = true.
Proof. destruct s; reflexivity. Qed.

Lemma startsWith_app w r : startsWith (w ++ r) w = true.
Proof.
  induction w as [|x w IH]; simpl; [apply startsWith_nil_r|].
  rewrite N.eqb_refl. exact IH.
Qed.

Lemma startsWith_true s w : startsWith s w = true -> exists r, s = w ++ r.
Proof.
  revert s. induction w as [|x w IH]; intros s Hs.
  - exists s. reflexivity.
  - destruct s as [|c s]; [discriminate|]. simpl in Hs.
    apply andb_true_iff in Hs as [Hc Hs]. apply N.eqb_eq in Hc. subst c.
    destruct (IH s Hs) as [r ->]. exists r. reflexivity.
Qed.

Lemma includes_cons c t w : includes (c :: t) w = startsWith (c :: t) w || includes t w.
Proof. reflexivity. Qed.

Lemma includes_true s w : includes s w = true <-> exists a b, s = a ++ w ++ b.
Proof.
  split.
  - induction s as [|c t IH]; intros Hs.
    + destruct w; [|discriminate]. exists [], []. reflexivity.
    + rewrite includes_cons in Hs. apply orb_true_iff in Hs as [Hs|Hs].
      * apply startsWith_true in Hs as [r Hr]. exists [], r. exact Hr.
      * destruct (IH Hs) as (a & b & ->). exists (c :: a), b. reflexivity.
  - intros (a & b & ->). induction a as [|c a IH].
    + simpl app. destruct (w ++ b) eqn:E.
      * apply app_eq_nil in E as [-> _]. reflexivity.
      * rewrite includes_cons, <- E, startsWith_app. reflexivity.
    + simpl app. rewrite includes_cons, IH. apply orb_true_r.
Qed.

Lemma startsWith_includes s w : startsWith s w = true -> includes s w = true.
Proof.
  intros H. apply startsWith_true in H as [r ->]. apply includes_true.
  exists [], r. reflexivity.
Qed.

Lemma trimEnd_nil_iff s : trimEnd s = [] <-> forallb isWhiteSpace s = true.
Proof.
  induction s as [|c t IH]; simpl; [tauto|].
  destruct (trimEnd t) eqn:E.
  - destruct (isWhiteSpace c); simpl; [tauto|]. split; discriminate.
  - split; [discriminate|]. intros H. apply andb_true_iff in H as [_ H].
    apply IH in H. discriminate.
Qed.

(** A prefix test that ends in a code unit other than white space does not
    see the white space cut off at the end. *)
Lemma startsWith_trimEnd s w :
  w <> [] -> isWhiteSpace (List.last w 0) = false ->
  startsWith (trimEnd s) w = startsWith s w.
Proof.
  revert w. induction s as [|c t IH]; intros w Hne Hlast; [reflexivity|].
  destruct w as [|x w]; [congruence|]. simpl.
  destruct w as [|y w].
  - (* the word is one code unit *)
    simpl in Hlast. rewrite !startsWith_nil_r, !andb_true_r.
    destruct (trimEnd t) eqn:E; simpl.
    + destruct (isWhiteSpace c) eqn:Ec; simpl.
      * destruct (c =? x) eqn:Ex; [|reflexivity].
        apply N.eqb_eq in Ex. congruence.
      * apply andb_true_r.
    + apply andb_true_r.
  - assert (Hl : isWhiteSpace (List.last (y :: w) 0) = false) by exact Hlast.
    specialize (IH (y :: w) ltac:(discriminate) Hl).
    destruct (trimEnd t) eqn:E.
    + rewrite <- IH.
      destruct (isWhiteSpace c); simpl; rewrite ?andb_false_r; reflexivity.
    + simpl. rewrite <- IH. reflexivity.
Qed.

Lemma includes_trimEnd s w :
  w <> [] -> isWhiteSpace (List.last w 0) = false ->
  includes (trimEnd s) w = includes s w.
Proof.
  intros Hne Hlast. induction s as [|c t IH]; [reflexivity|].
  change (includes (c :: t) w) with (startsWith (c :: t) w || includes t w).
  rewrite <- IH, <- (startsWith_trimEnd (c :: t) w Hne Hlast).
  simpl. destruct (trimEnd t) eqn:E.
  - destruct w as [|x w]; [congruence|].
    destruct (isWhiteSpace c); simpl; rewrite ?orb_false_r; reflexivity.
  - reflexivity.
Qed.

Lemma includes_trimStart s w :
  solid w = true -> includes (trimStart s) w = includes s w.
Proof.
  intros Hw. unfold trimStart. induction s as [|c t IH]; [reflexivity|].
  simpl dropWhile. destruct (isWhiteSpace c) eqn:Ec; [|reflexivity].
  rewrite IH.
  change (includes (c :: t) w) with (startsWith (c :: t) w || includes t w).
  destruct w as [|x w]; [discriminate|]. simpl startsWith.
  destruct (c =? x) eqn:Ex; [|reflexivity].
  apply N.eqb_eq in Ex. subst x. simpl in Hw. rewrite Ec in Hw. discriminate.
Qed.

Lemma solid_last w : solid w = true -> w <> [] /\ isWhiteSpace (List.last w 0) = false.
Proof.
  destruct w as [|x w]; [discriminate|]. unfold solid. intros H.
  apply andb_true_iff in H as [_ H]. apply negb_true_iff in H.
  split; [discriminate | exact H].
Qed.

(** Searching for a solid word gives the same answer before and after
    [trim]. *)
Lemma includes_trim s w : solid w = true -> includes (trim s) w = includes s w.
Proof.
  intros Hw. unfold trim. rewrite includes_trimStart by exact Hw.
  destruct (solid_last w Hw) as [Hne Hlast]. apply includes_trimEnd; assumption.
Qed.

End StringFacts.

(** ** Plain text: where every case mapping agrees

    On documents written in Basic Latin and CJK ideographs the program never
    hands any other text to [toLowerCase] or [toUpperCase], so its result is
    the one computed with [basicLatinCase]. *)

Lemma Plain_forallb s : Plain s <-> forallb isPlain s = true.
Proof.
  unfold Plain. rewrite Forall_forall, forallb_forall.
  split; intros H x Hx; apply H; apply list_elem_of_In; exact Hx.
Qed.

Lemma PlainLines_forallb ls : forallb (forallb isPlain) ls = true -> PlainLines ls.
Proof.
  unfold PlainLines. rewrite Forall_forall, forallb_forall.
  intros H x Hx. apply Plain_forallb, H, list_elem_of_In, Hx.
Qed.

Section PlainClosure.

Lemma Plain_dropWhile p s : Plain s -> Plain (dropWhile p s).
Proof.
  induction 1 as [|c t Hc Ht IH]; simpl; [constructor|].
  destruct (p c); [exact IH | constructor; assumption].
Qed.

Lemma Plain_trimEnd s : Plain s -> Plain (trimEnd s).
Proof.
  induction 1 as [|c t Hc Ht IH]; simpl; [constructor|].
  destruct (trimEnd t).
  - destruct (isWhiteSpace c); repeat constructor; assumption.
  - constructor; assumption.
Qed.

Lemma Plain_trim s : Plain s -> Plain (trim s).
Proof. intros H. apply Plain_dropWhile, Plain_trimEnd, H. Qed.

Lemma Plain_app a b : Plain a -> Plain b -> Plain (a ++ b).
Proof. apply Forall_app_2. Qed.

Lemma Plain_drop n s : Plain s -> Plain (drop n s).
Proof. apply Forall_drop. Qed.

(** Induction two code units at a time, for scans that look one ahead. *)
Lemma str_ind2 (P : str -> Prop) :
  P [] -> (forall c, P [c]) ->
  (forall c d t, P t -> P (d :: t) -> P (c :: d :: t)) ->
  forall s, P s.
Proof.
  intros H0 H1 H2 s.
  enough (H : P s /\ forall c, P (c :: s)) by apply H.
  induction s as [|d t [IH1 IH2]]; split; auto.
Qed.

Lemma escapePipes_escaped t : escapePipes (92 :: 124 :: t) = PLACEHOLDER ++ escapePipes t.
Proof. reflexivity. Qed.

Lemma escapePipes_other c d t :
  (c =? 92) && (d =? 124) = false -> escapePipes (c :: d :: t) = c :: escapePipes (d :: t).
Proof. intros H. cbn [escapePipes]. rewrite H. reflexivity. Qed.

Lemma escapePipes_cases c d t :
  (c = 92 /\ d = 124 /\ escapePipes (c :: d :: t) = PLACEHOLDER ++ escapePipes t)
  \/ ((c =? 92) && (d =? 124) = false
      /\ escapePipes (c :: d :: t) = c :: escapePipes (d :: t)).
Proof.
  destruct ((c =? 92) && (d =? 124)) eqn:E.
  - left. apply andb_true_iff in E as [E1 E2].
    apply N.eqb_eq in E1, E2. subst. auto.
  - right. split; [reflexivity | apply escapePipes_other, E].
Qed.

Lemma Plain_PLACEHOLDER : Plain PLACEHOLDER.
Proof. apply Plain_forallb. reflexivity. Qed.

Lemma Plain_escapePipes s : Plain s -> Plain (escapePipes s).
Proof.
  induction s as [| c | c d t IHt IHdt] using str_ind2; intros H.
  - constructor.
  - exact H.
  - inversion H as [|? ? Hc Hdt]; subst. inversion Hdt as [|? ? Hd Ht]; subst.
    destruct (escapePipes_cases c d t) as [(_ & _ & ->) | (_ & ->)].
    + apply Plain_app; [apply Plain_PLACEHOLDER | apply IHt, Ht].
    + constructor; [exact Hc | apply IHdt, Hdt].
Qed.

Lemma Plain_dropFirstIf x s : Plain s -> Plain (dropFirstIf x s).
Proof.
  destruct 1 as [|c t Hc Ht]; simpl; [constructor|].
  destruct (c =? x); [exact Ht | constructor; assumption].
Qed.

Lemma Plain_dropLastIf x s : Plain s -> Plain (dropLastIf x s).
Proof.
  induction 1 as [|c t Hc Ht IH]; simpl; [constructor|].
  destruct t; [destruct (c =? x); repeat constructor; exact Hc|].
  constructor; assumption.
Qed.

Lemma PlainLines_consFirst c ps : isPlain c = true -> PlainLines ps -> PlainLines (consFirst c ps).
Proof.
  intros Hc [|h r Hh Hr]; simpl; repeat constructor; assumption.
Qed.

Lemma PlainLines_split sep s : Plain s -> PlainLines (split sep s).
Proof.
  induction 1 as [|c t Hc Ht IH]; simpl; [repeat constructor|].
  destruct (c =? sep); [constructor; [constructor | exact IH]|].
  apply PlainLines_consFirst; assumption.
Qed.

Lemma PlainLines_splitLines s : Plain s -> PlainLines (splitLines s).
Proof.
  induction s as [| c | c d t IHt IHdt] using str_ind2; intros H.
  - repeat constructor.
  - inversion H; subst. simpl. destruct (c =? 10); repeat constructor; assumption.
  - inversion H as [|? ? Hc Hdt]; subst. inversion Hdt as [|? ? Hd Ht]; subst.
    cbn [splitLines]. destruct (c =? 10).
    + constructor; [constructor | apply IHdt, Hdt].
    + destruct ((c =? 13) && (d =? 10)).
      * constructor; [constructor | apply IHt, Ht].
      * apply PlainLines_consFirst; [exact Hc | apply IHdt, Hdt].
Qed.

Lemma Plain_restoreFrom k s : Plain s -> Plain (restoreFrom k s).
Proof.
  intros H. revert k. induction H as [|c t Hc Ht IH]; intros k; [constructor|].
  cbn [restoreFrom]. destruct k; [|apply IH].
  destruct (startsWith (c :: t) PLACEHOLDER); constructor;
    first [apply IH | assumption | reflexivity].
Qed.

Lemma PlainLines_splitRow row : Plain row -> PlainLines (splitRowPreservingEscapedPipes row).
Proof.
  intros H. unfold splitRowPreservingEscapedPipes, PlainLines.
  apply List.Forall_map.
  assert (Hs : PlainLines (split 124 (stripTrailingPipe (stripLeadingPipe (escapePipes row)))))
    by (apply PlainLines_split, Plain_dropLastIf, Plain_dropFirstIf, Plain_escapePipes, H).
  eapply Forall_impl; [exact Hs|].
  intros p Hp. apply Plain_restoreFrom, Plain_trim, Hp.
Qed.

Lemma Plain_stripHeadingMarker s : Plain s -> Plain (stripHeadingMarker s).
Proof.
  intros H. unfold stripHeadingMarker.
  destruct (startsWith _ _); [|exact H].
  apply Plain_dropWhile, Plain_drop, Plain_dropWhile, H.
Qed.

Lemma Plain_stripPropsSuffix s : Plain s -> Plain (stripPropsSuffix s).
Proof.
  induction 1 as [|c t Hc Ht IH]; simpl; [constructor|].
  destruct (isWhiteSpace c && _).
  - apply Plain_dropWhile, Plain_drop, Plain_dropWhile, Ht.
  - constructor; assumption.
Qed.

Lemma Plain_componentName s : Plain s -> Plain (componentName s).
Proof.
  intros H. apply Plain_trim, Plain_stripPropsSuffix, Plain_stripHeadingMarker, H.
Qed.

Lemma PlainLines_sectionBody ls : PlainLines ls -> PlainLines (sectionBody ls).
Proof.
  induction 1 as [|l r Hl Hr IH]; simpl; [constructor|].
  destruct (startsWith _ _); constructor; assumption.
Qed.

Lemma PlainLines_collectTable ls : PlainLines ls -> PlainLines (collectTable ls).
Proof.
  induction 1 as [|l r Hl Hr IH]; simpl; [constructor|].
  destruct (negb _); [constructor|]. destruct (eqb _ _); [constructor|].
  constructor; [exact Hl|]. destruct r; [constructor|].
  destruct (eqb _ _); [constructor | exact IH].
Qed.

Lemma PlainLines_extractFirstTable ls : PlainLines ls -> PlainLines (extractFirstTable ls).
Proof.
  intros H. unfold extractFirstTable.
  destruct (findTableStart _); [|constructor].
  apply PlainLines_collectTable, Forall_drop, Forall_map.
  eapply Forall_impl; [exact H|]. intros l Hl. apply Plain_trimEnd, Hl.
Qed.

Lemma Plain_cell cols i : PlainLines cols -> Plain (cell cols i).
Proof.
  intros H. unfold cell, at_. apply Plain_trim.
  destruct (i <? 0)%Z; [constructor|].
  destruct (nth_error cols (Z.to_nat i)) as [x|] eqn:E; [|constructor].
  simpl. eapply Forall_forall in H; [exact H|].
  apply list_elem_of_In. eapply nth_error_In, E.
Qed.

End PlainClosure.

Section PlainAgreement.
Context (cm : CaseMapping).

Lemma toLowerCase_Plain s : Plain s -> toLowerCase (CaseMapping:=cm) s = map lowerUnit s.
Proof. intros H. apply toLowerCase_plain, Plain_forallb, H. Qed.

Lemma toUpperCase_Plain s : Plain s -> toUpperCase (CaseMapping:=cm) s = map upperUnit s.
Proof. intros H. apply toUpperCase_plain, Plain_forallb, H. Qed.

Lemma findIndex_ext_in {A} (p q : A -> bool) (l : list A) :
  Forall (fun x => p x = q x) l -> findIndex p l = findIndex q l.
Proof.
  induction 1 as [|x r Hx Hr IH]; simpl; [reflexivity|].
  rewrite Hx, IH. reflexivity.
Qed.

Lemma filter_ext_Forall {A} (p q : A -> bool) (l : list A) :
  Forall (fun x => p x = q x) l -> List.filter p l = List.filter q l.
Proof.
  induction 1 as [|x r Hx Hr IH]; simpl; [reflexivity|].
  rewrite Hx, IH. reflexivity.
Qed.

Lemma find_ext_Forall {A} (p q : A -> bool) (l : list A) :
  Forall (fun x => p x = q x) l -> List.find p l = List.find q l.
Proof.
  induction 1 as [|x r Hx Hr IH]; simpl; [reflexivity|].
  rewrite Hx, IH. reflexivity.
Qed.

Lemma map_ext_Forall {A B} (f g : A -> B) (l : list A) :
  Forall (fun x => f x = g x) l -> map f l = map g l.
Proof.
  induction 1 as [|x r Hx Hr IH]; simpl; [reflexivity|].
  rewrite Hx, IH. reflexivity.
Qed.

Lemma isSectionHeading_plain h l :
  Plain h -> Plain l ->
  isSectionHeading (CM:=cm) h l = isSectionHeading (CM:=basicLatinCase) h l.
Proof.
  intros Hh Hl. unfold isSectionHeading.
  rewrite (toLowerCase_Plain (trim l)) by apply Plain_trim, Hl.
  rewrite (toLowerCase_Plain h) by exact Hh. reflexivity.
Qed.

Lemma extractSection_plain ls h :
  PlainLines ls -> Plain h ->
  extractSection (CM:=cm) ls h = extractSection (CM:=basicLatinCase) ls h.
Proof.
  intros Hls Hh. unfold extractSection.
  rewrite (findIndex_ext_in (isSectionHeading (CM:=cm) h)
             (isSectionHeading (CM:=basicLatinCase) h)); [reflexivity|].
  eapply Forall_impl; [exact Hls|]. intros l Hl. apply isSectionHeading_plain; assumption.
Qed.

Lemma PlainLines_extractSection (c : CaseMapping) ls h :
  PlainLines ls -> PlainLines (extractSection (CM:=c) ls h).
Proof.
  intros H. unfold extractSection. destruct (findIndex _ _); [|constructor].
  apply PlainLines_sectionBody, Forall_drop, H.
Qed.

Lemma parseMarkdownTable_plain tl :
  PlainLines tl ->
  parseMarkdownTable (CM:=cm) tl = parseMarkdownTable (CM:=basicLatinCase) tl.
Proof.
  intros H. unfold parseMarkdownTable.
  destruct (length tl <? 2)%nat; [reflexivity|]. f_equal.
  apply map_ext_Forall.
  assert (Hh : Plain (orEmpty (nth_error tl 0))).
  { destruct tl as [|x r]; [constructor|]. inversion H; assumption. }
  eapply Forall_impl; [apply PlainLines_splitRow, Hh|].
  intros x Hx. apply toLowerCase_Plain, Hx.
Qed.

Lemma PlainRows_parseMarkdownTable (c : CaseMapping) tl :
  PlainLines tl -> Forall PlainLines (rows (parseMarkdownTable (CM:=c) tl)).
Proof.
  intros H. unfold parseMarkdownTable.
  destruct (length tl <? 2)%nat; [constructor|]. simpl.
  apply List.Forall_map.
  assert (Hd : PlainLines (drop 2 tl)) by apply Forall_drop, H.
  induction Hd as [|x r Hx Hr IH]; simpl; [constructor|].
  destruct (_ && _); [constructor; [apply PlainLines_splitRow, Hx | exact IH] | exact IH].
Qed.

Lemma propRow_plain hs cols :
  PlainLines cols -> propRow (CM:=cm) hs cols = propRow (CM:=basicLatinCase) hs cols.
Proof.
  intros H. unfold propRow.
  rewrite (toUpperCase_Plain (cell cols _)) by apply Plain_cell, H. reflexivity.
Qed.

Lemma parsePropsTable_plain tl :
  PlainLines tl ->
  parsePropsTable (CM:=cm) tl = parsePropsTable (CM:=basicLatinCase) tl.
Proof.
  intros H. unfold parsePropsTable. rewrite parseMarkdownTable_plain by exact H.
  destruct (_ =? _)%nat; [reflexivity|]. apply map_ext_Forall.
  eapply Forall_impl; [apply (PlainRows_parseMarkdownTable basicLatinCase), H|].
  intros cols Hc. apply propRow_plain, Hc.
Qed.

Lemma parseEventsTable_plain tl :
  PlainLines tl ->
  parseEventsTable (CM:=cm) tl = parseEventsTable (CM:=basicLatinCase) tl.
Proof.
  intros H. unfold parseEventsTable. rewrite parseMarkdownTable_plain by exact H.
  reflexivity.
Qed.

Lemma parseMethodsTable_plain tl :
  PlainLines tl ->
  parseMethodsTable (CM:=cm) tl = parseMethodsTable (CM:=basicLatinCase) tl.
Proof.
  intros H. unfold parseMethodsTable. rewrite parseMarkdownTable_plain by exact H.
  reflexivity.
Qed.

Lemma componentDoc_plain ls name :
  PlainLines ls -> Plain name ->
  componentDoc (CM:=cm) ls name = componentDoc (CM:=basicLatinCase) ls name.
Proof.
  intros Hls Hn. unfold componentDoc.
  assert (Hlit : forall w, forallb isPlain w = true -> Plain (name ++ w))
    by (intros w Hw; apply Plain_app; [exact Hn | apply Plain_forallb, Hw]).
  rewrite !extractSection_plain by (try exact Hls; apply Hlit; reflexivity).
  rewrite parsePropsTable_plain, parseEventsTable_plain, parseMethodsTable_plain
    by (apply PlainLines_extractFirstTable, PlainLines_extractSection, Hls).
  reflexivity.
Qed.

Lemma isPropsHeadingText_plain l :
  Plain l -> isPropsHeadingText (CM:=cm) l = isPropsHeadingText (CM:=basicLatinCase) l.
Proof.
  intros H. unfold isPropsHeadingText. rewrite (toLowerCase_Plain l) by exact H. reflexivity.
Qed.

Lemma isPropsHeading_plain l :
  Plain l -> isPropsHeading (CM:=cm) l = isPropsHeading (CM:=basicLatinCase) l.
Proof. intros H. apply (isPropsHeadingText_plain (trim l)), Plain_trim, H. Qed.

Lemma isPropsHeadingLine_plain l :
  Plain l -> isPropsHeadingLine (CM:=cm) l = isPropsHeadingLine (CM:=basicLatinCase) l.
Proof.
  intros H. unfold isPropsHeadingLine.
  rewrite (toLowerCase_Plain (trim l)) by apply Plain_trim, H.
  rewrite (toLowerCase_Plain l) by exact H. reflexivity.
Qed.

Lemma parseMultiComponentDoc_plain ls :
  PlainLines ls ->
  parseMultiComponentDoc (CM:=cm) ls = parseMultiComponentDoc (CM:=basicLatinCase) ls.
Proof.
  intros H. unfold parseMultiComponentDoc.
  assert (Ht : PlainLines (map trim ls)).
  { apply List.Forall_map. eapply Forall_impl; [exact H|]. intros l Hl. apply Plain_trim, Hl. }
  rewrite (filter_ext_Forall (isPropsHeadingText (CM:=cm))
             (isPropsHeadingText (CM:=basicLatinCase)))
    by (eapply Forall_impl; [exact Ht|]; intros l Hl; apply isPropsHeadingText_plain, Hl).
  apply map_ext_Forall.
  assert (Hf : PlainLines (List.filter (isPropsHeadingText (CM:=basicLatinCase)) (map trim ls))).
  { clear -Ht. induction Ht as [|x r Hx Hr IH]; simpl; [constructor|].
    destruct (isPropsHeadingText x); [constructor|]; assumption. }
  eapply Forall_impl; [exact Hf|].
  intros l Hl. apply componentDoc_plain; [exact H | apply Plain_componentName, Hl].
Qed.

(** On a plain document the documents returned do not depend on the case
    mapping (nor on the store). *)
Lemma processMarkdownFile_plain md st :
  Plain md ->
  fst (processMarkdownFile (CM:=cm) md st)
  = fst (processMarkdownFile (CM:=basicLatinCase) md ∅).
Proof.
  intros H. unfold processMarkdownFile.
  assert (Hls : PlainLines (splitLines md)) by apply PlainLines_splitLines, H.
  rewrite (filter_ext_Forall (isPropsHeading (CM:=cm)) (isPropsHeading (CM:=basicLatinCase)))
    by (eapply Forall_impl; [exact Hls|]; intros l Hl; apply isPropsHeading_plain, Hl).
  destruct (1 <? _)%nat; cbn [fst].
  - apply parseMultiComponentDoc_plain, Hls.
  - rewrite (find_ext_Forall (isPropsHeadingLine (CM:=cm))
               (isPropsHeadingLine (CM:=basicLatinCase)))
      by (eapply Forall_impl; [exact Hls|]; intros l Hl; apply isPropsHeadingLine_plain, Hl).
    f_equal. apply componentDoc_plain; [exact Hls|].
    destruct (List.find _ _) as [[|c t]|] eqn:E; try (apply Plain_forallb; reflexivity).
    apply Plain_componentName. apply find_some in E as [E _].
    eapply Forall_forall in Hls; [exact Hls|]. apply list_elem_of_In, E.
Qed.

End PlainAgreement.

(** * Properties of the extraction pipeline *)

(** ** The Button scenario *)

(** C1. For the document whose lines are exactly the heading
    [### Button Props], the five-column header row, the separator row and
    the data row for [theme], the pipeline returns exactly one component
    document: component [Button], one property record (name [theme], type
    [string], default value [default], the description of the data row, not
    required), no events, and no [methods] field.  This holds for every case
    mapping and every store. *)
Theorem button_props_scenario (cm : CaseMapping) (st : Store) :
  fst (processMarkdownFile (CM:=cm) buttonDoc st) =
  [ {| component := lit "Button";
       props := [ {| prop_name := lit "theme";
                     prop_type := lit "string";
                     prop_defaultValue := Some (lit "default");
                     prop_description := lit "按钮风格";
                     prop_required := false |} ];
       events := [];
       methods := None |} ].
Proof.
  rewrite processMarkdownFile_plain by (apply Plain_forallb; reflexivity).
  vm_compute. reflexivity.
Qed.

(** ** Tables that are not there *)

Section Interpreters.
Context (cm : CaseMapping).

Lemma parseMarkdownTable_short tl :
  (length tl < 2)%nat -> parseMarkdownTable tl = {| headers := []; rows := [] |}.
Proof.
  intros H. unfold parseMarkdownTable.
  apply Nat.ltb_lt in H. rewrite H. reflexivity.
Qed.

(** C7. When the table locator finds no table in a section (the located
    sequence has fewer than two lines, in particular when it is empty), the
    property, event and method interpreters each return the empty list of
    records.  The interpreters are total functions: there is no error
    outcome to return. *)
Theorem no_table_no_records (sectionLines : list str) :
  (length (extractFirstTable sectionLines) < 2)%nat ->
  parsePropsTable (extractFirstTable sectionLines) = []
  /\ parseEventsTable (extractFirstTable sectionLines) = []
  /\ parseMethodsTable (extractFirstTable sectionLines) = [].
Proof.
  intros H. unfold parsePropsTable, parseEventsTable, parseMethodsTable.
  rewrite (parseMarkdownTable_short (extractFirstTable sectionLines) H).
  cbn [headers rows length Nat.eqb]. repeat split.
Qed.

(** ** Default values *)

Lemma split_not_nil sep s : split sep s <> [].
Proof.
  destruct s as [|c t]; simpl; [discriminate|].
  destruct (c =? sep); [discriminate|]. destruct (split sep t); discriminate.
Qed.

Lemma splitRow_not_nil row : splitRowPreservingEscapedPipes row <> [].
Proof.
  unfold splitRowPreservingEscapedPipes. intros H.
  apply map_eq_nil in H. exact (split_not_nil _ _ H).
Qed.

(** The records are the data rows, one for one and in order. *)
Lemma parsePropsTable_rows tl :
  parsePropsTable tl
  = map (propRow (headers (parseMarkdownTable tl))) (rows (parseMarkdownTable tl)).
Proof.
  unfold parsePropsTable, parseMarkdownTable.
  destruct (length tl <? 2)%nat; [reflexivity|]. cbn [headers rows].
  destruct (map toLowerCase _) eqn:E; [|reflexivity].
  apply map_eq_nil in E. destruct (splitRow_not_nil _ E).
Qed.

(** C6. For every data row of a properties table, the record produced for
    it has default value [null] exactly when the trimmed default-value cell
    (the cell under the header [默认值], or the empty string when the row or
    the header has no such column) is empty or is the dash placeholder, and
    otherwise the default value is that trimmed text. *)
Theorem defaultValue_null_iff (tableLines : list str) (i : nat) (cols : list str) :
  nth_error (rows (parseMarkdownTable tableLines)) i = Some cols ->
  exists r,
    nth_error (parsePropsTable tableLines) i = Some r
    /\ let defaultIdx := indexOf (lit "默认值") (headers (parseMarkdownTable tableLines)) in
       let raw := trim (orEmpty (at_ cols defaultIdx)) in
       (prop_defaultValue r = None <-> raw = [] \/ raw = lit "-")
       /\ (raw <> [] -> raw <> lit "-" -> prop_defaultValue r = Some raw).
Proof.
  intros Hrow. rewrite parsePropsTable_rows.
  exists (propRow (headers (parseMarkdownTable tableLines)) cols). split.
  - rewrite nth_error_map, Hrow. reflexivity.
  - cbn zeta. unfold propRow. cbn [prop_defaultValue]. unfold cell.
    set (raw := trim (orEmpty (at_ cols _))).
    destruct (eqb raw (lit "-")) eqn:E1; destruct (eqb raw []) eqn:E2; cbn [orb].
    + apply eqb_eq in E1. split; [tauto | congruence].
    + apply eqb_eq in E1. split; [tauto | congruence].
    + apply eqb_eq in E2. split; [tauto | congruence].
    + split; [|reflexivity]. split; [discriminate|].
      intros [H|H]; apply eqb_eq in H; congruence.
Qed.

End Interpreters.

(** C7, at a section of prose. *)
Lemma no_table_no_records_witness :
  let section := [lit "Plain prose, no table."; []] in
  (length (extractFirstTable section) < 2)%nat
  /\ parsePropsTable (CM:=basicLatinCase) (extractFirstTable section) = []
  /\ parseEventsTable (CM:=basicLatinCase) (extractFirstTable section) = []
  /\ parseMethodsTable (CM:=basicLatinCase) (extractFirstTable section) = [].
Proof.
  intros section.
  assert (H : (length (extractFirstTable section) < 2)%nat)
    by (apply Nat.ltb_lt; reflexivity).
  split; [exact H | exact (no_table_no_records basicLatinCase section H)].
Defined.

(** The scenario of the specification: a dash in the default-value cell
    gives [null]. *)
Example dash_default_is_null (cm : CaseMapping) :
  parsePropsTable (CM:=cm) dashDefaultTable =
  [ {| prop_name := lit "size";
       prop_type := lit "string";
       prop_defaultValue := None;
       prop_description := lit "尺寸";
       prop_required := false |} ].
Proof.
  rewrite parsePropsTable_plain by (apply PlainLines_forallb; reflexivity).
  vm_compute. reflexivity.
Qed.

(** C6, at the row of the scenario. *)
Lemma defaultValue_null_iff_witness :
  let cols := [lit "size"; lit "string"; lit "-"; lit "尺寸"; lit "N"] in
  nth_error (rows (parseMarkdownTable (CM:=basicLatinCase) dashDefaultTable)) 0 = Some cols
  /\ exists r,
       nth_error (parsePropsTable (CM:=basicLatinCase) dashDefaultTable) 0 = Some r
       /\ let defaultIdx :=
            indexOf (lit "默认值")
                    (headers (parseMarkdownTable (CM:=basicLatinCase) dashDefaultTable)) in
          let raw := trim (orEmpty (at_ cols defaultIdx)) in
          (prop_defaultValue r = None <-> raw = [] \/ raw = lit "-")
          /\ (raw <> [] -> raw <> lit "-" -> prop_defaultValue r = Some raw).
Proof.
  intros cols.
  assert (H : nth_error (rows (parseMarkdownTable (CM:=basicLatinCase) dashDefaultTable)) 0
              = Some cols) by reflexivity.
  split; [exact H | exact (defaultValue_null_iff basicLatinCase dashDefaultTable 0 cols H)].
Defined.

(** ** The row tokenizer *)

Section Tokenizer.

Lemma restoreFrom_drop k s : restoreFrom k s = restoreFrom 0 (drop k s).
Proof.
  revert k. induction s as [|c t IH]; intros k.
  - destruct k; reflexivity.
  - destruct k; [reflexivity|]. cbn [restoreFrom]. rewrite IH. reflexivity.
Qed.

(** The scan of [restorePipes], one step at a time. *)
Lemma restorePipes_cons c t :
  restorePipes (c :: t)
  = if startsWith (c :: t) PLACEHOLDER
    then 124 :: restorePipes (drop 15 t) else c :: restorePipes t.
Proof.
  unfold restorePipes. cbn [restoreFrom].
  rewrite (restoreFrom_drop 15 t). reflexivity.
Qed.

Lemma restorePipes_match s :
  startsWith s PLACEHOLDER = true -> exists r, restorePipes s = 124 :: r.
Proof.
  destruct s as [|c t]; [discriminate|]. intros H.
  rewrite restorePipes_cons, H. eexists. reflexivity.
Qed.

Lemma includes_pipe_head r : includes (124 :: r) [124] = true.
Proof. rewrite includes_cons. cbn [startsWith]. rewrite startsWith_nil_r. reflexivity. Qed.

(** A placeholder in the text leaves a pipe in the restored text. *)
Lemma restorePipes_includes_pipe s :
  includes s PLACEHOLDER = true -> includes (restorePipes s) [124] = true.
Proof.
  intros H. apply includes_true in H as (a & b & ->).
  induction a as [|c a IH].
  - change ([] ++ PLACEHOLDER ++ b) with (PLACEHOLDER ++ b).
    destruct (restorePipes_match (PLACEHOLDER ++ b)) as [r ->];
      [apply startsWith_app | apply includes_pipe_head].
  - rewrite <- app_comm_cons, restorePipes_cons.
    destruct (startsWith _ _); [apply includes_pipe_head|].
    rewrite includes_cons, IH. apply orb_true_r.
Qed.

(** What the restored text starts with, short of a pipe, the text itself
    starts with. *)
Lemma restorePipes_startsWith s w :
  existsb (N.eqb 124) w = false ->
  startsWith (restorePipes s) w = true -> startsWith s w = true.
Proof.
  revert s. induction w as [|x w IH]; intros s Hw H; [apply startsWith_nil_r|].
  cbn [existsb] in Hw. apply orb_false_iff in Hw as [Hx Hw].
  destruct s as [|c t]; [discriminate|].
  rewrite restorePipes_cons in H. destruct (startsWith (c :: t) PLACEHOLDER).
  - cbn [startsWith] in H. rewrite Hx in H. discriminate.
  - cbn [startsWith] in H |- *. apply andb_true_iff in H as [-> H].
    apply IH; assumption.
Qed.

(** No placeholder is left in a restored text. *)
Lemma restorePipes_no_placeholder s : includes (restorePipes s) PLACEHOLDER = false.
Proof.
  remember (length s) as n eqn:Hn. revert s Hn.
  induction n as [n IH] using lt_wf_ind. intros s Hn.
  destruct s as [|c t]; [reflexivity|].
  rewrite restorePipes_cons. destruct (startsWith (c :: t) PLACEHOLDER) eqn:E.
  - rewrite includes_cons.
    rewrite (IH (length (drop 15 t))); [reflexivity| |reflexivity].
    subst n. rewrite length_drop. simpl. lia.
  - rewrite includes_cons.
    rewrite (IH (length t)) by (subst n; simpl; lia || reflexivity).
    rewrite orb_false_r.
    destruct (startsWith (c :: restorePipes t) PLACEHOLDER) eqn:E'; [|reflexivity].
    assert (H : startsWith (restorePipes (c :: t)) PLACEHOLDER = true)
      by (rewrite restorePipes_cons, E; exact E').
    apply restorePipes_startsWith in H; [congruence | reflexivity].
Qed.

Lemma meetsEscaped_tail c d t b : meetsEscaped (c :: d :: t) b = meetsEscaped (d :: t) b.
Proof. reflexivity. Qed.

Lemma escapePipes_app a b :
  meetsEscaped a b = false -> escapePipes (a ++ b) = escapePipes a ++ escapePipes b.
Proof.
  induction a as [| c | c d t IHt IHdt] using str_ind2; intros H.
  - reflexivity.
  - destruct b as [|d b]; [reflexivity|]. change ([c] ++ d :: b) with (c :: d :: b).
    rewrite escapePipes_other; [reflexivity|].
    unfold meetsEscaped in H. cbn [List.last startsWith] in H.
    rewrite startsWith_nil_r, andb_true_r in H. exact H.
  - rewrite meetsEscaped_tail in H. rewrite <- !app_comm_cons.
    destruct (escapePipes_cases c d t) as [(-> & -> & ->) | (E & ->)].
    + rewrite escapePipes_escaped, <- app_assoc. f_equal.
      destruct t as [|e t]; [reflexivity|]. apply IHt. exact H.
    + rewrite (escapePipes_other c d (t ++ b) E), <- app_comm_cons. f_equal.
      apply (IHdt H).
Qed.

Lemma escapePipes_PLACEHOLDER : escapePipes PLACEHOLDER = PLACEHOLDER.
Proof. reflexivity. Qed.

Lemma escapePipes_literal_placeholder pre post :
  escapePipes (pre ++ PLACEHOLDER ++ post)
  = escapePipes pre ++ PLACEHOLDER ++ escapePipes post.
Proof.
  rewrite escapePipes_app.
  - rewrite (escapePipes_app PLACEHOLDER post) by reflexivity.
    rewrite escapePipes_PLACEHOLDER. reflexivity.
  - unfold meetsEscaped.
    replace (startsWith (PLACEHOLDER ++ post) [124]) with false by reflexivity.
    apply andb_false_r.
Qed.

Lemma escapePipes_escaped_pipe pre post :
  escapePipes (pre ++ escapedPipe ++ post)
  = escapePipes pre ++ PLACEHOLDER ++ escapePipes post.
Proof.
  rewrite escapePipes_app.
  - reflexivity.
  - unfold meetsEscaped.
    replace (startsWith (escapedPipe ++ post) [124]) with false by reflexivity.
    apply andb_false_r.
Qed.

Lemma split_no_sep sep x : existsb (N.eqb sep) x = false -> split sep x = [x].
Proof.
  induction x as [|c x IH]; [reflexivity|]. cbn [existsb split].
  intros H. apply orb_false_iff in H as [Hc Hx].
  rewrite N.eqb_sym, Hc, (IH Hx). reflexivity.
Qed.

Lemma split_app_sep sep x rest :
  existsb (N.eqb sep) x = false -> split sep (x ++ sep :: rest) = x :: split sep rest.
Proof.
  induction x as [|c x IH]; intros H.
  - cbn [app split]. rewrite N.eqb_refl. reflexivity.
  - cbn [existsb] in H. apply orb_false_iff in H as [Hc Hx].
    rewrite <- app_comm_cons. cbn [split].
    rewrite N.eqb_sym, Hc, (IH Hx). reflexivity.
Qed.

Lemma split_join sep cells :
  cells <> [] -> Forall (fun x => existsb (N.eqb sep) x = false) cells ->
  split sep (join [sep] cells) = cells.
Proof.
  intros Hne H. induction H as [|x r Hx Hr IH]; [congruence|].
  destruct r as [|y r].
  - apply split_no_sep, Hx.
  - change (join [sep] (x :: y :: r)) with (x ++ sep :: join [sep] (y :: r)).
    rewrite split_app_sep by exact Hx. f_equal. apply IH. discriminate.
Qed.

Lemma dropLastIf_snoc x s : dropLastIf x (s ++ [x]) = s.
Proof.
  induction s as [|c s IH].
  - cbn. rewrite N.eqb_refl. reflexivity.
  - rewrite <- app_comm_cons. cbn [dropLastIf]. rewrite IH.
    destruct (s ++ [x]) eqn:E; [|reflexivity].
    apply app_eq_nil in E as [_ E]. discriminate.
Qed.

Lemma escapePipes_pipe_head y : escapePipes (124 :: y) = 124 :: escapePipes y.
Proof. exact (escapePipes_app [124] y eq_refl). Qed.

Lemma meetsEscaped_no_backslash c b : List.last c 0 <> 92 -> meetsEscaped c b = false.
Proof.
  intros H. unfold meetsEscaped. apply N.eqb_neq in H. rewrite H. reflexivity.
Qed.

Lemma escapePipes_join cells :
  Forall (fun c => List.last c 0 <> 92) cells ->
  escapePipes (join [124] cells ++ [124]) = join [124] (map escapePipes cells) ++ [124].
Proof.
  induction 1 as [|c r Hc Hr IH]; [reflexivity|].
  destruct r as [|c' r].
  - cbn [join map]. rewrite escapePipes_app by apply meetsEscaped_no_backslash, Hc.
    reflexivity.
  - change (join [124] (c :: c' :: r)) with (c ++ [124] ++ join [124] (c' :: r)).
    change (join [124] (map escapePipes (c :: c' :: r)))
      with (escapePipes c ++ [124] ++ join [124] (map escapePipes (c' :: r))).
    rewrite <- !app_assoc.
    rewrite escapePipes_app by apply meetsEscaped_no_backslash, Hc.
    f_equal. change ([124] ++ ?x) with (124 :: x).
    rewrite escapePipes_pipe_head, IH. reflexivity.
Qed.

Lemma splitRow_rowOf cells :
  cells <> [] -> Forall cellSource cells ->
  splitRowPreservingEscapedPipes (rowOf cells) = map cellValue cells.
Proof.
  intros Hne H. unfold splitRowPreservingEscapedPipes, rowOf.
  change ([124] ++ ?x) with (124 :: x).
  rewrite escapePipes_pipe_head, escapePipes_join
    by (eapply Forall_impl; [exact H|]; intros c Hc; apply Hc).
  unfold stripLeadingPipe, stripTrailingPipe. cbn [dropFirstIf N.eqb Pos.eqb].
  rewrite dropLastIf_snoc, split_join.
  - rewrite map_map. reflexivity.
  - destruct cells; [congruence | discriminate].
  - apply List.Forall_map. eapply Forall_impl; [exact H|]. intros c Hc; apply Hc.
Qed.

Lemma escapedPipe_includes_placeholder c :
  includes c escapedPipe = true -> includes (escapePipes c) PLACEHOLDER = true.
Proof.
  intros H. apply includes_true in H as (a & b & ->).
  rewrite escapePipes_escaped_pipe. apply includes_true. eauto.
Qed.

Lemma cellValue_includes_pipe c :
  includes c escapedPipe = true -> includes (cellValue c) [124] = true.
Proof.
  intros H. unfold cellValue. apply restorePipes_includes_pipe.
  rewrite includes_trim by reflexivity. apply escapedPipe_includes_placeholder, H.
Qed.

(** *** Any row with an escaped pipe *)

Lemma length_consFirst c ps : ps <> [] -> length (consFirst c ps) = length ps.
Proof. destruct ps; [congruence | reflexivity]. Qed.

Lemma length_split_app sep x y :
  (length (split sep (x ++ y)) + 1 = length (split sep x) + length (split sep y))%nat.
Proof.
  induction x as [|c x IH]; [cbn; lia|].
  rewrite <- app_comm_cons. cbn [split]. destruct (c =? sep).
  - cbn [length]. lia.
  - rewrite !length_consFirst by apply split_not_nil. exact IH.
Qed.

(** The number of pieces does not depend on a part that holds no
    separator. *)
Lemma length_split_middle sep u w w' v :
  existsb (N.eqb sep) w = false -> existsb (N.eqb sep) w' = false ->
  length (split sep (u ++ w ++ v)) = length (split sep (u ++ w' ++ v)).
Proof.
  intros Hw Hw'.
  pose proof (length_split_app sep u (w ++ v)) as H1.
  pose proof (length_split_app sep w v) as H2.
  pose proof (length_split_app sep u (w' ++ v)) as H3.
  pose proof (length_split_app sep w' v) as H4.
  rewrite (split_no_sep sep w Hw) in H2. rewrite (split_no_sep sep w' Hw') in H4.
  cbn [length] in H2, H4. lia.
Qed.

Lemma dropFirstIf_app x u w :
  startsWith w [x] = false -> w <> [] -> dropFirstIf x (u ++ w) = dropFirstIf x u ++ w.
Proof.
  intros Hw Hne. destruct u as [|c u].
  - destruct w as [|d w]; [congruence|]. cbn [app dropFirstIf].
    cbn [startsWith] in Hw. rewrite startsWith_nil_r, andb_true_r in Hw.
    rewrite Hw. reflexivity.
  - rewrite <- app_comm_cons. cbn [dropFirstIf]. destruct (c =? x); reflexivity.
Qed.

Lemma dropLastIf_solid x p : p <> [] -> List.last p 0 <> x -> dropLastIf x p = p.
Proof.
  induction p as [|c p IH]; [congruence|]. intros _ Hl.
  cbn [dropLastIf]. destruct p as [|d p].
  - cbn in Hl. apply N.eqb_neq in Hl. rewrite Hl. reflexivity.
  - f_equal. apply IH; [discriminate | exact Hl].
Qed.

Lemma dropLastIf_app x p v :
  p <> [] -> List.last p 0 <> x -> dropLastIf x (p ++ v) = p ++ dropLastIf x v.
Proof.
  intros Hne Hl. destruct v as [|e v].
  - rewrite !app_nil_r. apply dropLastIf_solid; assumption.
  - clear Hne Hl. induction p as [|c p IH]; [reflexivity|].
    rewrite <- !app_comm_cons. cbn [dropLastIf]. rewrite IH.
    destruct (p ++ e :: v) eqn:E; [|reflexivity].
    apply app_eq_nil in E as [_ E]. discriminate.
Qed.

Lemma List_last_app (p w : str) d : w <> [] -> List.last (p ++ w) d = List.last w d.
Proof.
  intros Hne. induction p as [|c p IH]; [reflexivity|].
  rewrite <- app_comm_cons. cbn [List.last]. rewrite IH.
  destruct (p ++ w) eqn:E; [|reflexivity].
  apply app_eq_nil in E as [_ E]. congruence.
Qed.

(** The row after the replacement of escaped pipes and the removal of the
    outer pipes, around a part that holds no pipe. *)
Lemma strip_around u w v :
  w <> [] -> startsWith w [124] = false -> List.last w 0 <> 124 ->
  stripTrailingPipe (stripLeadingPipe (u ++ w ++ v))
  = stripLeadingPipe u ++ w ++ stripTrailingPipe v.
Proof.
  intros Hne Hhead Hlast. unfold stripLeadingPipe, stripTrailingPipe.
  assert (Hwv : startsWith (w ++ v) [124] = false).
  { destruct w as [|d w]; [congruence|]. rewrite <- app_comm_cons.
    cbn [startsWith] in Hhead |- *. rewrite startsWith_nil_r in Hhead |- *. exact Hhead. }
  rewrite (dropFirstIf_app 124 u (w ++ v) Hwv) by (destruct w; [congruence | discriminate]).
  rewrite app_assoc, dropLastIf_app, <- app_assoc; [reflexivity | |].
  - destruct w; [congruence|]. destruct (dropFirstIf 124 u); discriminate.
  - rewrite List_last_app by exact Hne. exact Hlast.
Qed.

Lemma split_head_startsWith sep w t :
  existsb (N.eqb sep) w = false -> startsWith t w = true ->
  exists h r, split sep t = h :: r /\ startsWith h w = true.
Proof.
  revert t. induction w as [|x w IH]; intros t Hw Ht.
  - destruct (split sep t) as [|h r] eqn:E; [destruct (split_not_nil _ _ E)|].
    exists h, r. split; [reflexivity | apply startsWith_nil_r].
  - destruct t as [|c t]; [discriminate|]. cbn [startsWith] in Ht.
    apply andb_true_iff in Ht as [Hc Ht]. apply N.eqb_eq in Hc. subst c.
    cbn [existsb] in Hw. apply orb_false_iff in Hw as [Hx Hw].
    destruct (IH t Hw Ht) as (h & r & E & Hh).
    exists (x :: h), r. cbn [split]. rewrite N.eqb_sym, Hx, E. split; [reflexivity|].
    cbn [startsWith]. rewrite N.eqb_refl. exact Hh.
Qed.

(** A word without separator that occurs in a text occurs in one of its
    pieces. *)
Lemma split_includes sep w s :
  existsb (N.eqb sep) w = false -> includes s w = true ->
  Exists (fun p => includes p w = true) (split sep s).
Proof.
  intros Hw. induction s as [|c t IH]; intros H.
  - constructor. exact H.
  - rewrite includes_cons in H. apply orb_true_iff in H as [H|H].
    + destruct (split_head_startsWith sep w (c :: t) Hw H) as (h & r & -> & Hh).
      constructor. apply startsWith_includes, Hh.
    + specialize (IH H). cbn [split]. destruct (c =? sep).
      * apply Exists_cons_tl, IH.
      * destruct (split sep t) as [|h r]; [inversion IH|]. cbn [consFirst].
        apply Exists_cons in IH as [IH|IH].
        -- apply Exists_cons_hd. rewrite includes_cons, IH. apply orb_true_r.
        -- apply Exists_cons_tl, IH.
Qed.

Lemma splitRow_placeholder_cell u v :
  Exists (fun value => includes value [124] = true)
         (map (fun p => restorePipes (trim p))
              (split 124 (stripTrailingPipe (stripLeadingPipe (u ++ PLACEHOLDER ++ v))))).
Proof.
  rewrite strip_around by (try discriminate; reflexivity).
  apply Exists_fmap.
  eapply Exists_impl; [apply (split_includes 124 PLACEHOLDER); [reflexivity|]|].
  - apply includes_true. eauto.
  - intros p Hp. apply restorePipes_includes_pipe.
    rewrite includes_trim by reflexivity. exact Hp.
Qed.

(** C5. For every table row with an escaped pipe in it, whatever stands
    before and after: the escaped pipe is no column boundary (the row has as
    many cells as the row with an ordinary letter in the place of the escaped
    pipe), and one of the returned values contains the pipe character.  For
    a row written as cells between pipes, where the only pipes inside a cell
    text are escaped ones, the tokenizer returns one value per cell, in
    order, and the value of a cell whose text contains an escaped pipe
    contains the pipe character.  (The values are [cellValue]: escaped pipes
    are replaced first, the row is split afterwards.) *)
Theorem escaped_pipe_stays_in_cell (before after : str) (cells : list str) :
  (length (splitRowPreservingEscapedPipes (before ++ escapedPipe ++ after))
   = length (splitRowPreservingEscapedPipes (before ++ lit "x" ++ after))
   /\ Exists (fun value => includes value [124] = true)
             (splitRowPreservingEscapedPipes (before ++ escapedPipe ++ after)))
  /\ (cells <> [] -> Forall cellSource cells ->
      splitRowPreservingEscapedPipes (rowOf cells) = map cellValue cells
      /\ length (splitRowPreservingEscapedPipes (rowOf cells)) = length cells
      /\ Forall (fun c => includes c escapedPipe = true ->
                          includes (cellValue c) [124] = true) cells).
Proof.
  split; [split|].
  - unfold splitRowPreservingEscapedPipes. rewrite !length_map.
    rewrite escapePipes_escaped_pipe.
    assert (Hx : escapePipes (before ++ lit "x" ++ after)
                 = escapePipes before ++ lit "x" ++ escapePipes after).
    { rewrite escapePipes_app.
      - rewrite (escapePipes_app (lit "x") after) by reflexivity. reflexivity.
      - unfold meetsEscaped.
        replace (startsWith (lit "x" ++ after) [124]) with false by reflexivity.
        apply andb_false_r. }
    rewrite Hx, !strip_around by (try discriminate; reflexivity).
    apply length_split_middle; reflexivity.
  - unfold splitRowPreservingEscapedPipes. rewrite escapePipes_escaped_pipe.
    apply splitRow_placeholder_cell.
  - intros Hne H. rewrite (splitRow_rowOf cells Hne H). split; [reflexivity|].
    split; [apply length_map|].
    apply Forall_forall. intros c _. apply cellValue_includes_pipe.
Qed.

Lemma cellValue_placeholder_pipe c :
  includes c PLACEHOLDER = true -> includes (cellValue c) [124] = true.
Proof.
  intros H. unfold cellValue. apply restorePipes_includes_pipe.
  rewrite includes_trim by reflexivity.
  apply includes_true in H as (a & b & ->).
  rewrite escapePipes_literal_placeholder. apply includes_true. eauto.
Qed.

(** C9. A row in which the text [__ESCAPED_PIPE__] stands literally is
    tokenized exactly as the row with an escaped pipe in its place, although
    the two rows differ: the tokenizer is not injective.  No returned cell
    contains the placeholder text, and some returned cell contains a pipe;
    in a row of well-formed cells the value of a cell whose text contains
    the placeholder text contains a pipe; and the cell [__ESCAPED_PIPE__]
    comes back as the pipe character alone. *)
Theorem placeholder_text_conflated (pre post : str) :
  splitRowPreservingEscapedPipes (pre ++ PLACEHOLDER ++ post)
  = splitRowPreservingEscapedPipes (pre ++ escapedPipe ++ post)
  /\ pre ++ PLACEHOLDER ++ post <> pre ++ escapedPipe ++ post
  /\ Forall (fun cell => includes cell PLACEHOLDER = false)
            (splitRowPreservingEscapedPipes (pre ++ PLACEHOLDER ++ post))
  /\ Exists (fun cell => includes cell [124] = true)
            (splitRowPreservingEscapedPipes (pre ++ PLACEHOLDER ++ post))
  /\ (forall cells, cells <> [] -> Forall cellSource cells ->
        splitRowPreservingEscapedPipes (rowOf cells) = map cellValue cells
        /\ Forall (fun c => includes c PLACEHOLDER = true ->
                            includes (cellValue c) [124] = true) cells)
  /\ splitRowPreservingEscapedPipes (lit "| __ESCAPED_PIPE__ |") = [[124]].
Proof.
  split; [|split; [|split; [|split; [|split]]]].
  - unfold splitRowPreservingEscapedPipes.
    rewrite escapePipes_literal_placeholder, escapePipes_escaped_pipe. reflexivity.
  - intros H. apply app_inv_head in H. apply (f_equal (@length N)) in H.
    rewrite !length_app in H. vm_compute in H. lia.
  - unfold splitRowPreservingEscapedPipes. apply List.Forall_map, Forall_forall.
    intros p _. apply restorePipes_no_placeholder.
  - unfold splitRowPreservingEscapedPipes. rewrite escapePipes_literal_placeholder.
    apply splitRow_placeholder_cell.
  - intros cells Hne H. split; [apply splitRow_rowOf; assumption|].
    apply Forall_forall. intros c _. apply cellValue_placeholder_pipe.
  - vm_compute. reflexivity.
Qed.

End Tokenizer.

(** C5, at a row of two cells, the first with an escaped pipe. *)
Lemma escaped_pipe_stays_in_cell_witness :
  let cells := [lit " a \| b "; lit " c "] in
  (cells <> [] /\ Forall cellSource cells)
  /\ splitRowPreservingEscapedPipes (rowOf cells) = map cellValue cells
  /\ length (splitRowPreservingEscapedPipes (rowOf cells)) = length cells
  /\ Forall (fun c => includes c escapedPipe = true ->
                      includes (cellValue c) [124] = true) cells.
Proof.
  intros cells.
  assert (Hne : cells <> []) by discriminate.
  assert (H : Forall cellSource cells).
  { repeat constructor; try reflexivity; vm_compute; discriminate. }
  split; [split; assumption|].
  exact (proj2 (escaped_pipe_stays_in_cell [] [] cells) Hne H).
Defined.

(** ** The section extractor *)

Section SectionExtractor.
Context (cm : CaseMapping).

Lemma findIndex_cases {A} (p : A -> bool) (l : list A) :
  (findIndex p l = None /\ Forall (fun x => p x = false) l)
  \/ (exists pre x post,
        l = pre ++ x :: post /\ Forall (fun y => p y = false) pre /\ p x = true
        /\ findIndex p l = Some (length pre)).
Proof.
  induction l as [|x r IH].
  - left. split; [reflexivity | constructor].
  - cbn [findIndex]. destruct (p x) eqn:Ex.
    + right. exists [], x, r. repeat split; [constructor | exact Ex].
    + destruct IH as [[-> Hr] | (pre & y & post & -> & Hpre & Hy & ->)].
      * left. split; [reflexivity | constructor; assumption].
      * right. exists (x :: pre), y, post.
        repeat split; [constructor; assumption | exact Hy].
Qed.

Lemma sectionBody_cases (rest0 : list str) :
  exists body rest,
    rest0 = body ++ rest
    /\ Forall (fun x => startsWith (trim x) (lit "### ") = false) body
    /\ (rest = [] \/ exists r rest', rest = r :: rest'
                                     /\ startsWith (trim r) (lit "### ") = true)
    /\ sectionBody rest0 = body.
Proof.
  induction rest0 as [|l more (body & rest & -> & Hb & Hr & IH)].
  - exists [], []. repeat split; [constructor | left; reflexivity].
  - cbn [sectionBody]. destruct (startsWith (trim l) (lit "### ")) eqn:E.
    + exists [], (l :: body ++ rest).
      repeat split; [constructor | right; eauto].
    + exists (l :: body), rest. rewrite IH.
      repeat split; [constructor; assumption | exact Hr].
Qed.

(** C3, as the code has it.  Either no line of the document is a heading
    for the label (its trimmed, lower-cased text does not start with [### ]
    followed by the lower-cased label) and the section is empty; or the
    document splits into the lines before the first such heading, that
    heading, the section, and a rest that is empty or starts with the next
    line whose trimmed text starts with [### ], and no line of the section
    starts that way. *)
Theorem extractSection_until_level3_heading (lines : list str) (heading : str) :
  (Forall (fun x => isSectionHeading heading x = false) lines
   /\ extractSection lines heading = [])
  \/ (exists pre l body rest,
        lines = pre ++ l :: body ++ rest
        /\ Forall (fun x => isSectionHeading heading x = false) pre
        /\ isSectionHeading heading l = true
        /\ Forall (fun x => startsWith (trim x) (lit "### ") = false) body
        /\ (rest = [] \/ exists r rest', rest = r :: rest'
                                         /\ startsWith (trim r) (lit "### ") = true)
        /\ extractSection lines heading = body).
Proof.
  unfold extractSection.
  destruct (findIndex_cases (isSectionHeading heading) lines)
    as [[-> Hno] | (pre & l & post & -> & Hpre & Hl & ->)].
  - left. split; [exact Hno | reflexivity].
  - right. destruct (sectionBody_cases post) as (body & rest & -> & Hb & Hr & Hs).
    exists pre, l, body, rest.
    replace (drop (S (length pre)) (pre ++ l :: body ++ rest)) with (body ++ rest).
    + repeat split; assumption.
    + change (pre ++ l :: body ++ rest) with (pre ++ [l] ++ (body ++ rest)).
      rewrite app_assoc, drop_app_length'; [reflexivity|].
      rewrite length_app. simpl. lia.
Qed.

End SectionExtractor.

(** The claim of C3 fails where a heading of a coarser level follows: the
    section runs through it. *)
Lemma extractSection_coarser_heading_counterexample :
  (forall cm : CaseMapping,
      extractSection (CM:=cm) coarserHeadingDoc (lit "A Props")
      = [ lit "first"; lit "## Usage"; lit "second" ])
  /\ (forall cm : CaseMapping,
        SectionSpec.section (CM:=cm) coarserHeadingDoc (lit "A Props") = [ lit "first" ])
  /\ (forall cm : CaseMapping,
        extractSection (CM:=cm) coarserHeadingDoc (lit "A Props")
        <> SectionSpec.section (CM:=cm) coarserHeadingDoc (lit "A Props")).
Proof.
  assert (Hdoc : PlainLines coarserHeadingDoc) by (apply PlainLines_forallb; reflexivity).
  assert (Hh : Plain (lit "A Props")) by (apply Plain_forallb; reflexivity).
  assert (Hcode : forall cm : CaseMapping,
             extractSection (CM:=cm) coarserHeadingDoc (lit "A Props")
             = [ lit "first"; lit "## Usage"; lit "second" ]).
  { intros cm. rewrite extractSection_plain by assumption. vm_compute. reflexivity. }
  assert (Hspec : forall cm : CaseMapping,
             SectionSpec.section (CM:=cm) coarserHeadingDoc (lit "A Props") = [ lit "first" ]).
  { intros cm. unfold SectionSpec.section.
    rewrite (findIndex_ext_in (isSectionHeading (CM:=cm) (lit "A Props"))
               (isSectionHeading (CM:=basicLatinCase) (lit "A Props"))).
    - vm_compute. reflexivity.
    - eapply Forall_impl; [exact Hdoc|]. intros l Hl.
      apply isSectionHeading_plain; assumption. }
  split; [exact Hcode | split; [exact Hspec |]].
  intros cm. rewrite Hcode, Hspec. discriminate.
Qed.

(** ** The table locator *)

Section TableLocator.

Lemma findTableStart_None lines :
  findTableStart lines = None -> forall i, ~ headerPairAt lines i.
Proof.
  induction lines as [|l rest IH]; intros H i (h & sep & Hh & Hs & Hc & Hsep).
  - discriminate.
  - cbn [findTableStart] in H.
    destruct (isHeaderCandidate (trim l) && _) eqn:E; [discriminate|].
    destruct (findTableStart rest) eqn:Er; [discriminate|].
    destruct i as [|i].
    + cbn in Hh, Hs. injection Hh as ->. destruct rest as [|n r]; [discriminate|].
      cbn in Hs. injection Hs as ->. rewrite Hc, Hsep in E. discriminate.
    + apply (IH eq_refl i). exists h, sep. auto.
Qed.

Lemma findTableStart_Some lines n :
  findTableStart lines = Some n ->
  headerPairAt lines n /\ forall i, (i < n)%nat -> ~ headerPairAt lines i.
Proof.
  revert n. induction lines as [|l rest IH]; intros n H; [discriminate|].
  cbn [findTableStart] in H.
  destruct (isHeaderCandidate (trim l) && _) eqn:E.
  - injection H as <-. split; [|intros i Hi; lia].
    apply andb_true_iff in E as [Hc Hs].
    destruct rest as [|nx r]; [discriminate|]. exists l, nx. auto.
  - destruct (findTableStart rest) as [m|] eqn:Er; [|discriminate].
    injection H as <-. destruct (IH m eq_refl) as [(h & sep & Hh & Hs & Hc & Hsep) Hmin].
    split; [exists h, sep; auto|].
    intros i Hi (h' & sep' & Hh' & Hs' & Hc' & Hsep').
    destruct i as [|i].
    + cbn in Hh', Hs'. injection Hh' as ->. destruct rest as [|nx r]; [discriminate|].
      cbn in Hs'. injection Hs' as ->. rewrite Hc', Hsep' in E. discriminate.
    + apply (Hmin i); [lia|]. exists h', sep'. auto.
Qed.

Lemma collectTable_cases (ls : list str) :
  exists data rest,
    ls = data ++ rest
    /\ Forall (fun l => isTableRow l = true) data
    /\ (rest = [] \/ exists r rest', rest = r :: rest' /\ isTableRow r = false)
    /\ collectTable ls = data.
Proof.
  induction ls as [|t rest0 (data & rest & -> & Hd & Hr & IH)].
  - exists [], []. repeat split; [constructor | left; reflexivity].
  - cbn [collectTable]. unfold isTableRow.
    destruct (includes t (lit "|")) eqn:Ep; cbn [negb].
    2:{ exists [], (t :: data ++ rest). repeat split; [constructor|].
        right. exists t, (data ++ rest). rewrite Ep. auto. }
    destruct (eqb (trim t) []) eqn:Eb.
    { exists [], (t :: data ++ rest). repeat split; [constructor|].
      right. exists t, (data ++ rest). rewrite Ep, Eb. auto. }
    assert (Ht : includes t (lit "|") && negb (eqb (trim t) []) = true)
      by (rewrite Ep, Eb; reflexivity).
    destruct (data ++ rest) as [|next more] eqn:Erest.
    + apply app_eq_nil in Erest as [-> ->]. exists [t], [].
      repeat split; [repeat constructor; exact Ht | left; reflexivity].
    + destruct (eqb (trim next) []) eqn:En.
      * exists [t], (next :: more).
        repeat split; [repeat constructor; exact Ht|].
        right. exists next, more. rewrite En, andb_false_r. auto.
      * exists (t :: data), rest. rewrite IH.
        repeat split; [rewrite <- Erest; reflexivity | constructor; assumption | exact Hr].
Qed.

Lemma isTableRow_of_pipe l : includes l (lit "|") = true -> isTableRow l = true.
Proof.
  intros H. unfold isTableRow. rewrite H. cbn [andb]. apply negb_true_iff.
  destruct (eqb (trim l) []) eqn:E; [|reflexivity].
  apply eqb_eq in E. rewrite <- (includes_trim l (lit "|")) in H by reflexivity.
  rewrite E in H. discriminate.
Qed.

Lemma isHeaderCandidate_row l : isHeaderCandidate (trim l) = true -> isTableRow l = true.
Proof.
  intros H. apply isTableRow_of_pipe.
  rewrite <- (includes_trim l (lit "|")) by reflexivity.
  unfold isHeaderCandidate in H. apply orb_true_iff in H as [H|H].
  - apply startsWith_includes, H.
  - apply andb_true_iff in H. apply H.
Qed.

Lemma hasSeparator_row l : hasSeparator l = true -> isTableRow l = true.
Proof.
  intros H. apply isTableRow_of_pipe. induction l as [|c t IH]; [discriminate|].
  cbn [hasSeparator] in H. apply orb_true_iff in H as [H|H].
  - apply andb_true_iff in H as [H _]. apply N.eqb_eq in H. subst c.
    apply includes_pipe_head.
  - rewrite includes_cons, (IH H). apply orb_true_r.
Qed.

(** C4, as the code has it.  With the lines of the section trimmed at the
    end: either no line that passes the header test is directly followed by
    a line in which a pipe, optional white space and at least two dashes
    occur, and the result is empty; or the result is the first such header
    line, the line after it, and the lines that follow for as long as they
    contain a pipe and are not blank. *)
Theorem extractFirstTable_first_table (sectionLines : list str) :
  let lines := map normalizeLine sectionLines in
  ((forall i, ~ headerPairAt lines i) /\ extractFirstTable sectionLines = [])
  \/ (exists pre h sep data rest,
        lines = pre ++ h :: sep :: data ++ rest
        /\ (forall i, (i < length pre)%nat -> ~ headerPairAt lines i)
        /\ isHeaderCandidate (trim h) = true
        /\ hasSeparator sep = true
        /\ Forall (fun l => isTableRow l = true) data
        /\ (rest = [] \/ exists r rest', rest = r :: rest' /\ isTableRow r = false)
        /\ extractFirstTable sectionLines = h :: sep :: data).
Proof.
  intros lines. unfold extractFirstTable. fold lines.
  destruct (findTableStart lines) as [n|] eqn:E.
  - right. destruct (findTableStart_Some lines n E) as [(h & sep & Hh & Hs & Hc & Hsep) Hmin].
    destruct (collectTable_cases (drop n lines)) as (data0 & rest & Hsplit & Hd & Hr & Hcol).
    assert (Hdrop : drop n lines = h :: sep :: drop (S (S n)) lines).
    { rewrite (drop_S lines h n Hh), (drop_S lines sep (S n) Hs). reflexivity. }
    assert (Hn : length (take n lines) = n).
    { apply length_take_le. apply lookup_lt_Some in Hh. lia. }
    (* the header and the separator are table rows, so they are collected *)
    destruct data0 as [|d0 data0].
    { destruct Hr as [-> | (r & rest' & -> & Hr)]; [rewrite Hdrop in Hsplit; discriminate|].
      rewrite Hdrop in Hsplit. injection Hsplit as <- _.
      rewrite (isHeaderCandidate_row h Hc) in Hr. discriminate. }
    destruct data0 as [|d1 data].
    { destruct Hr as [-> | (r & rest' & -> & Hr)]; [rewrite Hdrop in Hsplit; discriminate|].
      rewrite Hdrop in Hsplit. injection Hsplit as _ <- _.
      rewrite (hasSeparator_row sep Hsep) in Hr. discriminate. }
    rewrite Hdrop in Hsplit. injection Hsplit as <- <- Hafter.
    exists (take n lines), h, sep, data, rest.
    split; [|split; [|split; [|split; [|split; [|split]]]]]; try assumption.
    + rewrite <- Hafter, <- Hdrop. symmetry. apply take_drop.
    + rewrite Hn. exact Hmin.
    + inversion Hd as [|? ? _ Hd']; subst. inversion Hd'; assumption.
  - left. split; [apply findTableStart_None, E | reflexivity].
Qed.

(** The claim of C4 fails on a separator line with no closing pipe: no line
    holds a run of dashes between pipes, and a table is returned. *)
Lemma extractFirstTable_open_separator_counterexample :
  let section := [ lit "a | b"; lit "|--" ] in
  extractFirstTable section = [ lit "a | b"; lit "|--" ]
  /\ forallb (fun l => negb (SeparatorSpec.dashRunBetweenPipes l)) section = true.
Proof. split; vm_compute; reflexivity. Qed.

End TableLocator.

(** ** The document dispatcher *)

Section Dispatcher.
Context (cm : CaseMapping).

(** The two heading tests of [processMarkdownFile] (lines 412 and 426)
    accept the same lines. *)
Lemma isPropsHeadingLine_eq l : isPropsHeadingLine l = isPropsHeading l.
Proof.
  unfold isPropsHeadingLine, isPropsHeading. f_equal.
  rewrite toLowerCase_trim, includes_trim by reflexivity. reflexivity.
Qed.

Lemma toLowerCase_nil : toLowerCase [] = [].
Proof. apply (toLowerCase_plain []). reflexivity. Qed.

Lemma isPropsHeading_nil : isPropsHeading [] = false.
Proof.
  unfold isPropsHeading. change (trim []) with (@nil N).
  rewrite toLowerCase_nil. reflexivity.
Qed.

Lemma find_filter {A} (p : A -> bool) (l : list A) :
  List.find p l = hd_error (List.filter p l).
Proof.
  induction l as [|x r IH]; [reflexivity|]. cbn [List.find List.filter].
  destruct (p x); [reflexivity | exact IH].
Qed.

Lemma filter_map_trim lines :
  List.filter isPropsHeadingText (map trim lines)
  = map trim (List.filter isPropsHeading lines).
Proof.
  induction lines as [|l r IH]; [reflexivity|]. cbn [map List.filter].
  change (isPropsHeadingText (trim l)) with (isPropsHeading l).
  destruct (isPropsHeading l); cbn [map]; rewrite IH; reflexivity.
Qed.

Lemma stripPropsSuffix_name name :
  existsb isWhiteSpace name = false ->
  stripPropsSuffix (name ++ lit " Props") = name.
Proof.
  induction name as [|c t IH]; intros H; [reflexivity|].
  cbn [existsb] in H. apply orb_false_iff in H as [Hc Ht].
  rewrite <- app_comm_cons. cbn [stripPropsSuffix]. rewrite Hc. cbn [andb].
  rewrite (IH Ht). reflexivity.
Qed.

Lemma trimEnd_none s : existsb isWhiteSpace s = false -> trimEnd s = s.
Proof.
  induction s as [|c t IH]; [reflexivity|]. cbn [existsb trimEnd].
  intros H. apply orb_false_iff in H as [Hc Ht]. rewrite (IH Ht), Hc.
  destruct t; reflexivity.
Qed.

(** *** The name of a line and of its trimmed text *)

Lemma trimEnd_cons_solid c t : isWhiteSpace c = false -> trimEnd (c :: t) = c :: trimEnd t.
Proof. intros H. cbn [trimEnd]. rewrite H. destruct (trimEnd t); reflexivity. Qed.

Lemma trimEnd_cons_rest c t : trimEnd t <> [] -> trimEnd (c :: t) = c :: trimEnd t.
Proof. intros H. cbn [trimEnd]. destruct (trimEnd t); [congruence | reflexivity]. Qed.

Lemma trimEnd_cons_white c t :
  isWhiteSpace c = true -> trimEnd t = [] -> trimEnd (c :: t) = [].
Proof. intros Hc Ht. cbn [trimEnd]. rewrite Ht, Hc. reflexivity. Qed.

(** [trimEnd (c :: x)] depends on [x] through [trimEnd x] only. *)
Lemma trimEnd_cons_congr c x y : trimEnd x = trimEnd y -> trimEnd (c :: x) = trimEnd (c :: y).
Proof. intros H. cbn [trimEnd]. rewrite H. reflexivity. Qed.

Lemma trimEnd_idem s : trimEnd (trimEnd s) = trimEnd s.
Proof.
  induction s as [|c t IH]; [reflexivity|].
  cbn [trimEnd]. destruct (trimEnd t) as [|d r] eqn:E.
  - destruct (isWhiteSpace c) eqn:Ec; [reflexivity|].
    cbn [trimEnd]. rewrite Ec. reflexivity.
  - rewrite trimEnd_cons_rest by (rewrite IH; discriminate). rewrite IH. reflexivity.
Qed.

Lemma dropWhile_white p s :
  forallb isWhiteSpace s = true -> forallb isWhiteSpace (dropWhile p s) = true.
Proof.
  induction s as [|c t IH]; [reflexivity|]. cbn [forallb dropWhile]. intros H.
  destruct (p c); [apply IH; apply andb_true_iff in H; apply H | exact H].
Qed.

Lemma trimEnd_nil_or s : trimEnd s = [] \/ trimEnd s <> [].
Proof. destruct (trimEnd s); [left | right]; congruence. Qed.

Lemma trimEnd_cons_white_solid c t :
  isWhiteSpace c = false -> trimEnd t = [] -> trimEnd (c :: t) = [c].
Proof. intros Hc Ht. cbn [trimEnd]. rewrite Ht, Hc. reflexivity. Qed.

(** Cutting white space at the two ends commutes. *)
Lemma trimStart_trimEnd s : trimStart (trimEnd s) = trimEnd (trimStart s).
Proof.
  unfold trimStart. induction s as [|c t IH]; [reflexivity|].
  cbn [dropWhile]. destruct (isWhiteSpace c) eqn:Ec.
  - destruct (trimEnd_nil_or t) as [E|E].
    + rewrite (trimEnd_cons_white c t Ec E), <- IH, E. reflexivity.
    + rewrite (trimEnd_cons_rest c t E). cbn [dropWhile]. rewrite Ec. exact IH.
  - rewrite (trimEnd_cons_solid c t Ec). cbn [dropWhile]. rewrite Ec. reflexivity.
Qed.

Lemma isLineTerminator_white c : isLineTerminator c = true -> isWhiteSpace c = true.
Proof. intros H. unfold isWhiteSpace. rewrite H. apply orb_true_r. Qed.

Lemma trimEnd_dropWhile_line s :
  let notLine := fun d => negb (isLineTerminator d) in
  trimEnd (dropWhile notLine (trimEnd s)) = trimEnd (dropWhile notLine s).
Proof.
  intros notLine. induction s as [|c t IH]; [reflexivity|].
  destruct (trimEnd_nil_or t) as [E|E].
  - (* only white space follows *)
    assert (Ht : forallb isWhiteSpace t = true) by (apply trimEnd_nil_iff, E).
    assert (Hr : trimEnd (dropWhile notLine (c :: t)) = []).
    { cbn [dropWhile]. destruct (notLine c) eqn:En.
      - apply trimEnd_nil_iff, dropWhile_white, Ht.
      - apply trimEnd_nil_iff. cbn [forallb]. rewrite Ht, andb_true_r.
        apply isLineTerminator_white. apply negb_false_iff, En. }
    rewrite Hr. destruct (isWhiteSpace c) eqn:Ec.
    + rewrite (trimEnd_cons_white c t Ec E). reflexivity.
    + rewrite (trimEnd_cons_white_solid c t Ec E). cbn [dropWhile].
      destruct (notLine c) eqn:En; [reflexivity|].
      apply negb_false_iff, isLineTerminator_white in En. congruence.
  - rewrite (trimEnd_cons_rest c t E). cbn [dropWhile].
    destruct (notLine c); [exact IH|].
    apply trimEnd_cons_congr, trimEnd_idem.
Qed.

Lemma startsWithProps_trimEnd s : startsWithProps (trimEnd s) = startsWithProps s.
Proof.
  unfold startsWithProps. rewrite <- trimEnd_map_lowerUnit.
  apply startsWith_trimEnd; [discriminate | reflexivity].
Qed.

Lemma startsWith_map_lowerUnit_solid s w :
  forallb (fun c => negb (isWhiteSpace c)) w = true ->
  startsWith (map lowerUnit s) w = true ->
  exists p r, s = p ++ r /\ length p = length w
              /\ forallb (fun c => negb (isWhiteSpace c)) p = true.
Proof.
  revert s. induction w as [|x w IH]; intros s Hw H.
  - exists [], s. auto.
  - destruct s as [|c s]; [discriminate|]. cbn [map startsWith] in H.
    cbn [forallb] in Hw. apply andb_true_iff in Hw as [Hx Hw].
    apply andb_true_iff in H as [Hc H]. apply N.eqb_eq in Hc.
    destruct (IH s Hw H) as (p & r & -> & Hlen & Hp).
    exists (c :: p), r. cbn [length forallb]. rewrite Hlen, Hp, andb_true_r.
    repeat split. rewrite <- isWhiteSpace_lowerUnit, Hc. exact Hx.
Qed.

Lemma trimEnd_app_solid p r :
  forallb (fun c => negb (isWhiteSpace c)) p = true -> trimEnd (p ++ r) = p ++ trimEnd r.
Proof.
  induction p as [|c p IH]; [reflexivity|]. cbn [forallb]. intros H.
  apply andb_true_iff in H as [Hc Hp]. apply negb_true_iff in Hc.
  rewrite <- !app_comm_cons, trimEnd_cons_solid, (IH Hp) by exact Hc. reflexivity.
Qed.

Lemma stripPropsSuffix_white s :
  forallb isWhiteSpace s = true -> stripPropsSuffix s = s.
Proof.
  induction s as [|c t IH]; [reflexivity|]. cbn [forallb stripPropsSuffix]. intros H.
  apply andb_true_iff in H as [Hc Ht].
  assert (E : dropWhile isWhiteSpace t = []).
  { clear -Ht. induction t as [|d t IH]; [reflexivity|]. cbn [forallb dropWhile] in *.
    apply andb_true_iff in Ht as [Hd Ht]. rewrite Hd. apply IH, Ht. }
  rewrite E. change (startsWithProps []) with false. rewrite andb_false_r, (IH Ht).
  reflexivity.
Qed.

Lemma dropWhile_all p s : forallb p s = true -> dropWhile p s = [].
Proof.
  induction s as [|c t IH]; [reflexivity|]. cbn [forallb dropWhile]. intros H.
  apply andb_true_iff in H as [-> H]. apply IH, H.
Qed.

(** The suffix is cut in the same way whether or not the white space at the
    end has been cut first. *)
Lemma trimEnd_stripPropsSuffix s :
  trimEnd (stripPropsSuffix (trimEnd s)) = trimEnd (stripPropsSuffix s).
Proof.
  induction s as [|c t IH]; [reflexivity|].
  destruct (trimEnd_nil_or t) as [E|E].
  - assert (Ht : forallb isWhiteSpace t = true) by (apply trimEnd_nil_iff, E).
    assert (Hs : stripPropsSuffix (c :: t) = c :: t).
    { cbn [stripPropsSuffix]. rewrite (stripPropsSuffix_white t Ht).
      rewrite (dropWhile_all _ t Ht). rewrite andb_false_r. reflexivity. }
    rewrite Hs. destruct (isWhiteSpace c) eqn:Ec.
    + rewrite (trimEnd_cons_white c t Ec E). reflexivity.
    + rewrite (trimEnd_cons_white_solid c t Ec E).
      cbn [stripPropsSuffix]. rewrite Ec. cbn [andb trimEnd]. rewrite Ec. reflexivity.
  - rewrite (trimEnd_cons_rest c t E).
    cbn [stripPropsSuffix].
    change (dropWhile isWhiteSpace (trimEnd t)) with (trimStart (trimEnd t)).
    rewrite trimStart_trimEnd, startsWithProps_trimEnd. unfold trimStart.
    destruct (isWhiteSpace c && startsWithProps (dropWhile isWhiteSpace t)) eqn:Em.
    + apply andb_true_iff in Em as [_ Em]. unfold startsWithProps in Em.
      destruct (startsWith_map_lowerUnit_solid _ (lit "props") eq_refl Em)
        as (p & y & Hy & Hlen & Hp).
      rewrite Hy, (trimEnd_app_solid p y Hp).
      change (length (lit "props")) with 5%nat in Hlen.
      rewrite <- Hlen, !drop_app_length. apply trimEnd_dropWhile_line.
    + apply trimEnd_cons_congr, IH.
Qed.

Lemma componentName_trim h :
  startsWith (trimStart h) (lit "###") = true ->
  componentName (trim h) = componentName h.
Proof.
  intros H. unfold componentName.
  enough (E : stripHeadingMarker (trim h) = trimEnd (stripHeadingMarker h)).
  { rewrite E. unfold trim. rewrite trimEnd_stripPropsSuffix. reflexivity. }
  unfold stripHeadingMarker, trim. rewrite trimStart_trimEnd.
  fold (trimStart h). set (r := trimStart h) in *. rewrite H.
  apply startsWith_true in H as [r3 Hr].
  assert (Hs : trimEnd r = lit "###" ++ trimEnd r3)
    by (rewrite Hr; apply trimEnd_app_solid; reflexivity).
  rewrite Hs.
  change (dropWhile isWhiteSpace (lit "###" ++ trimEnd r3)) with (lit "###" ++ trimEnd r3).
  rewrite startsWith_app. rewrite Hr.
  change (drop 3 (lit "###" ++ trimEnd r3)) with (trimEnd r3).
  change (drop 3 (lit "###" ++ r3)) with r3.
  apply (trimStart_trimEnd r3).
Qed.

(** On a heading written [### Name Props], where the name is not empty and
    holds no white space, the derived component name is the name. *)
Lemma componentName_heading name :
  name <> [] -> existsb isWhiteSpace name = false ->
  componentName (lit "### " ++ name ++ lit " Props") = name.
Proof.
  intros Hne Hws. unfold componentName, stripHeadingMarker.
  change (dropWhile isWhiteSpace (lit "### " ++ name ++ lit " Props"))
    with (lit "### " ++ name ++ lit " Props").
  change (startsWith (lit "### " ++ name ++ lit " Props") (lit "###")) with true.
  cbv iota.
  change (drop 3 (lit "### " ++ name ++ lit " Props")) with (32 :: name ++ lit " Props").
  change (dropWhile isWhiteSpace (32 :: name ++ lit " Props"))
    with (dropWhile isWhiteSpace (name ++ lit " Props")).
  destruct name as [|c t]; [congruence|].
  rewrite <- app_comm_cons. cbn [dropWhile].
  cbn [existsb] in Hws. apply orb_false_iff in Hws as [Hc Ht]. rewrite Hc.
  rewrite app_comm_cons, stripPropsSuffix_name by (cbn [existsb]; rewrite Hc, Ht; reflexivity).
  unfold trim, trimStart.
  rewrite trimEnd_none by (cbn [existsb]; rewrite Hc, Ht; reflexivity).
  cbn [dropWhile]. rewrite Hc. reflexivity.
Qed.

(** C2.  With the headings of a document being its lines whose trimmed,
    lower-cased text starts with [### ] and contains [props]: when there is
    at most one heading, the pipeline returns exactly one component
    document, named by stripping the marker and the Props suffix from that
    heading, or [Unknown] when there is none; when there are several, it
    returns one component document per heading, in document order, each
    named by the same stripping of the (trimmed) heading.  The stripping
    gives back the name of a heading written [### Name Props], and it gives
    the same name for a line that starts with the marker and for its trimmed
    text. *)
Theorem dispatcher_classification (md : str) (st : Store) :
  let lines := splitLines md in
  let headings := List.filter isPropsHeading lines in
  let docs := fst (processMarkdownFile md st) in
  ((length headings <= 1)%nat ->
     let name := match headings with
                 | h :: _ => componentName h
                 | [] => lit "Unknown"
                 end in
     docs = [componentDoc lines name] /\ map component docs = [name])
  /\ ((1 < length headings)%nat ->
       docs = map (fun h => componentDoc lines (componentName (trim h))) headings
       /\ map component docs = map (fun h => componentName (trim h)) headings)
  /\ (forall name, name <> [] -> existsb isWhiteSpace name = false ->
        componentName (lit "### " ++ name ++ lit " Props") = name)
  /\ (forall h, startsWith (trimStart h) (lit "###") = true ->
        componentName (trim h) = componentName h).
Proof.
  intros lines headings docs. split; [|split; [|split]]; [| |apply componentName_heading
                                                        |apply componentName_trim].
  - intros Hlen name. subst docs. unfold processMarkdownFile. fold lines. fold headings.
    assert (E : (1 <? length headings)%nat = false) by (apply Nat.ltb_ge; exact Hlen).
    rewrite E. cbn [fst].
    assert (Hname : match List.find isPropsHeadingLine lines with
                    | Some ((_ :: _) as propsHeadingLine) => componentName propsHeadingLine
                    | _ => lit "Unknown"
                    end = name).
    { rewrite (find_ext_Forall isPropsHeadingLine isPropsHeading)
        by (apply Forall_forall; intros; apply isPropsHeadingLine_eq).
      rewrite find_filter. fold headings. subst name.
      destruct headings as [|h r] eqn:Eh; [reflexivity|]. cbn [hd_error].
      destruct h as [|c t]; [|reflexivity].
      assert (Hin : In [] (List.filter isPropsHeading lines))
        by (fold headings; rewrite Eh; left; reflexivity).
      apply filter_In in Hin as [_ Hin]. rewrite isPropsHeading_nil in Hin. discriminate. }
    rewrite Hname. split; reflexivity.
  - intros Hlen. subst docs. unfold processMarkdownFile. fold lines. fold headings.
    apply Nat.ltb_lt in Hlen. rewrite Hlen. cbn [fst].
    unfold parseMultiComponentDoc. rewrite filter_map_trim. fold headings.
    rewrite !map_map. split; reflexivity.
Qed.

End Dispatcher.

(** * The lookup tools never throw *)

Section ToolFailures.
Context (cm : CaseMapping) (env : Env).

Lemma lookupField_error fields message :
  (forall k v, In (k, v) fields -> k <> lit "error") ->
  lookupField (lit "error") (fields ++ [(lit "error", VString message)])
  = Some (VString message).
Proof.
  induction fields as [|[k v] r IH]; intros H; [reflexivity|].
  rewrite <- app_comm_cons. cbn [lookupField].
  destruct (eqb k (lit "error")) eqn:E.
  - apply eqb_eq in E. destruct (H k v (or_introl eq_refl) E).
  - apply IH. intros k' v' Hin. apply (H k' v'). right. exact Hin.
Qed.

Lemma carriesError_errorPayload fields message :
  (forall k v, In (k, v) fields -> k <> lit "error") ->
  carriesError (Normal (errorPayload fields message)).
Proof.
  intros H. eexists _, message. split; [reflexivity|].
  apply lookupField_error, H.
Qed.

Lemma loadComponentData_fails name :
  LookupFailure env name -> exists m, loadComponentData env name = Throw m.
Proof.
  assert (Hidx : forall entries, indexEntries env entries ->
            loadComponentData env name
            = (found ← findEntry env name entries;
               match found with
               | None => Throw (lit "Component '" ++ toText env name ++ lit "' not found")
               | Some entry =>
                   fileValue ← getField env (lit "file") entry;
                   match fileValue with
                   | VString file =>
                       let fileCandidates :=
                         [ resolve env [projectRoot env; toBuildPath file];
                           resolve env [projectRoot env; file] ] in
                       match findExisting env fileCandidates with
                       | None =>
                           Throw (lit "Component file not found for '" ++ toText env name
                                  ++ lit "'. Candidates: " ++ join (lit ", ") fileCandidates)
                       | Some abs => txt ← readFileSync env abs; JSON_parse env txt
                       end
                   | _ => Throw (typeError env)
                   end
               end)).
  { intros entries (f & raw & fields & Hf & Hraw & Hparse & Hc).
    unfold loadComponentData. rewrite Hf, Hraw. cbn [mbind Completion_bind].
    rewrite Hparse. cbn [mbind Completion_bind getField]. rewrite Hc. reflexivity. }
  assert (Hfiles : forall candidates, entryFiles env name candidates ->
            loadComponentData env name
            = match findExisting env candidates with
              | None =>
                  Throw (lit "Component file not found for '" ++ toText env name
                         ++ lit "'. Candidates: " ++ join (lit ", ") candidates)
              | Some abs => txt ← readFileSync env abs; JSON_parse env txt
              end).
  { intros candidates (entries & entry & file & He & Hfind & Hfile & ->).
    rewrite (Hidx entries He), Hfind. cbn [mbind Completion_bind].
    rewrite Hfile. reflexivity. }
  intros [Hi | entries He Hfind | cands Hc Hnone | cands abs m Hc Habs Hread
         | cands abs txt m Hc Habs Hread Hparse].
  - unfold loadComponentData.
    destruct Hi as [Hf | f m Hf Hread | f raw m Hf Hread Hparse]; rewrite Hf.
    + eauto.
    + rewrite Hread. eauto.
    + rewrite Hread. cbn [mbind Completion_bind]. rewrite Hparse. eauto.
  - rewrite (Hidx entries He), Hfind. eauto.
  - rewrite (Hfiles cands Hc), Hnone. eauto.
  - rewrite (Hfiles cands Hc), Habs, Hread. eauto.
  - rewrite (Hfiles cands Hc), Habs, Hread. cbn [mbind Completion_bind].
    rewrite Hparse. eauto.
Qed.

Lemma getComponentPart_returns key what args :
  exists payload, getComponentPart env key what args = Normal (TextResult payload).
Proof.
  unfold getComponentPart, tryCatch.
  destruct (isFalsy (componentNameOf args)); [eexists; reflexivity|].
  destruct (loadComponentData env (componentNameOf args)) as [data|m];
    cbn [mbind Completion_bind]; [|eexists; reflexivity].
  destruct (getField env (lit "component") data) as [comp|m];
    cbn [mbind Completion_bind]; [|eexists; reflexivity].
  destruct (getField env key data) as [part|m];
    cbn [mbind Completion_bind]; eexists; reflexivity.
Qed.

Lemma getComponentPart_failure key what args :
  isFalsy (componentNameOf args) = true \/ LookupFailure env (componentNameOf args) ->
  carriesError (getComponentPart env key what args).
Proof.
  intros H. unfold getComponentPart, tryCatch.
  destruct (isFalsy (componentNameOf args)) eqn:E.
  - apply carriesError_errorPayload. intros k v [].
  - destruct H as [H|H]; [discriminate|].
    destruct (loadComponentData_fails _ H) as [m ->]. cbn [mbind Completion_bind].
    apply carriesError_errorPayload. intros k v [].
Qed.

Lemma getComponentPart_thrown key what args m :
  loadComponentData env (componentNameOf args) = Throw m ->
  carriesError (getComponentPart env key what args).
Proof.
  intros H. unfold getComponentPart, tryCatch.
  destruct (isFalsy (componentNameOf args));
    [|rewrite H; cbn [mbind Completion_bind]];
    apply carriesError_errorPayload; intros k v [].
Qed.

Lemma getComponentList_returns :
  exists payload, getComponentList env = Normal (TextResult payload).
Proof.
  unfold getComponentList, tryCatch.
  destruct (findExisting env (indexCandidates env)); [|eexists; reflexivity].
  destruct (_ ← readFileSync env _; _) as [[payload]|m]; eexists; reflexivity.
Qed.

Lemma components_not_error k v :
  In (k, v) [(lit "components", VArray [])] -> k <> lit "error".
Proof. intros [H|[]]. injection H as <- _. discriminate. Qed.

Lemma getComponentList_failure :
  IndexFailure env -> carriesError (getComponentList env).
Proof.
  intros H. unfold getComponentList, tryCatch.
  destruct H as [Hf | f m Hf Hread | f raw m Hf Hread Hparse]; rewrite Hf.
  - apply carriesError_errorPayload, components_not_error.
  - rewrite Hread. cbn [mbind Completion_bind].
    apply carriesError_errorPayload, components_not_error.
  - rewrite Hread. cbn [mbind Completion_bind]. rewrite Hparse.
    cbn [mbind Completion_bind].
    apply carriesError_errorPayload, components_not_error.
Qed.

(** C10.  Whatever the file system holds and whatever arguments arrive,
    each of the three tools returns a text result and never throws.  When
    the index is missing, unreadable or malformed, the list tool returns a
    payload with an [error] field; when the component name is missing, or
    the look-up fails (no index, component not found, component file not
    found, unreadable or malformed file), the props and events tools return
    a payload with an [error] field; and so they do whenever the look-up
    throws, for whatever reason. *)
Theorem tool_handlers_never_throw (args : Value) :
  (exists payload, getComponentList env = Normal (TextResult payload))
  /\ (exists payload, getComponentProps env args = Normal (TextResult payload))
  /\ (exists payload, getComponentEvents env args = Normal (TextResult payload))
  /\ (IndexFailure env -> carriesError (getComponentList env))
  /\ (isFalsy (componentNameOf args) = true \/ LookupFailure env (componentNameOf args) ->
      carriesError (getComponentProps env args)
      /\ carriesError (getComponentEvents env args))
  /\ (forall m, loadComponentData env (componentNameOf args) = Throw m ->
      carriesError (getComponentProps env args)
      /\ carriesError (getComponentEvents env args)).
Proof.
  split; [apply getComponentList_returns|].
  split; [apply getComponentPart_returns|].
  split; [apply getComponentPart_returns|].
  split; [apply getComponentList_failure|].
  split.
  - intros H. split; apply getComponentPart_failure, H.
  - intros m H. split; apply (getComponentPart_thrown _ _ _ m H).
Qed.

End ToolFailures.

(** ** The tools on a small project *)

Example getComponentProps_unknown_component :
  getComponentProps (CM:=basicLatinCase) demoEnv
    (VObject [(lit "componentName", VString (lit "Input"))])
  = Normal (TextResult (VObject
      [ (lit "error",
         VString (lit "Failed to get component props: Component 'Input' not found")) ])).
Proof. vm_compute. reflexivity. Qed.

Example getComponentEvents_missing_file :
  getComponentEvents (CM:=basicLatinCase) demoEnv
    (VObject [(lit "componentName", VString (lit "button"))])
  = Normal (TextResult (VObject
      [ (lit "error",
         VString (lit "Failed to get component events: Component file not found for 'button'. Candidates: /srv/build/data/components/Button.json, /srv/src/data/components/Button.json")) ])).
Proof. vm_compute. reflexivity. Qed.

Example getComponentList_demo :
  getComponentList demoEnv
  = Normal (TextResult (VObject
      [ (lit "components",
         VArray [ VObject [ (lit "name", VString (lit "Button"));
                            (lit "file", VString (lit "src/data/components/Button.json")) ] ]);
        (lit "total", VNumber 1) ])).
Proof. vm_compute. reflexivity. Qed.

Example lookup_failure_unknown_component :
  LookupFailure (CM:=basicLatinCase) demoEnv (VString (lit "Input")).
Proof.
  apply (ComponentNotFound (CM:=basicLatinCase) demoEnv _
           [ VObject [ (lit "name", VString (lit "Button"));
                       (lit "file", VString (lit "src/data/components/Button.json")) ] ]).
  - exists (lit "/srv/src/data/components/index.json"), (lit "index text"),
      [ (lit "components",
         VArray [ VObject [ (lit "name", VString (lit "Button"));
                            (lit "file", VString (lit "src/data/components/Button.json")) ] ]) ].
    repeat split; vm_compute; reflexivity.
  - vm_compute. reflexivity.
Qed.

(** * Persistence *)

Section IndexMaintenance.
Context (cm : CaseMapping).

(** X1. Away from the file name [index], persisting a component whose
    name the index already has leaves the index file as it was: the entry
    keeps its old path. *)
Lemma processComponent_existing_entry (json : ComponentDocJson) (st : Store) :
  componentFileRel (component json) <> indexFileRel ->
  existsb (sameName json) (readIndex st) = true ->
  processComponent json st !! indexFileRel = st !! indexFileRel
  /\ readIndex (processComponent json st) = readIndex st.
Proof.
  intros Hne Hex.
  assert (H1 : readIndex (<[componentFileRel (component json) := ComponentFile json]> st)
               = readIndex st).
  { unfold readIndex. rewrite lookup_insert_ne by exact Hne. reflexivity. }
  unfold processComponent. rewrite H1, Hex.
  split; [apply lookup_insert_ne, Hne | exact H1].
Qed.

(** The component file is the index file exactly for the slug [index]. *)
Lemma componentFileRel_index name :
  componentFileRel name = indexFileRel <-> safeName name = lit "index".
Proof.
  unfold componentFileRel.
  change indexFileRel with (lit "src/data/components/" ++ lit "index" ++ lit ".json").
  split.
  - intros H. apply app_inv_head, app_inv_tail in H. exact H.
  - intros ->. reflexivity.
Qed.

(** C8 at a component named [index].  The index has an entry of that name;
    persisting the component writes the component document over
    [index.json], the index read back is empty, and a new index with the
    single entry for [index] is written: the old path of the entry and the
    entry for [Button] are gone. *)
Theorem processComponent_index_name_collision :
  existsb (sameName indexNamedDoc) (readIndex indexedStore) = true
  /\ componentFileRel (component indexNamedDoc) = indexFileRel
  /\ readIndex (processComponent indexNamedDoc indexedStore)
     = [ {| entry_name := lit "index";
            entry_file := lit "src/data/components/index.json" |} ]
  /\ readIndex (processComponent indexNamedDoc indexedStore) <> readIndex indexedStore.
Proof.
  assert (Hpath : componentFileRel (component indexNamedDoc) = indexFileRel)
    by (vm_compute; reflexivity).
  assert (Hbefore : readIndex indexedStore
                    = [ {| entry_name := lit "index";
                           entry_file := lit "docs/generated/index.json" |};
                        {| entry_name := lit "Button";
                           entry_file := lit "src/data/components/Button.json" |} ]).
  { unfold readIndex, indexedStore. rewrite lookup_singleton_eq. reflexivity. }
  assert (Hafter : readIndex (processComponent indexNamedDoc indexedStore)
                   = [ {| entry_name := lit "index";
                          entry_file := lit "src/data/components/index.json" |} ]).
  { unfold processComponent. rewrite Hpath.
    assert (H1 : readIndex (<[indexFileRel := ComponentFile indexNamedDoc]> indexedStore) = [])
      by (unfold readIndex; rewrite lookup_insert_eq; reflexivity).
    rewrite H1. cbn [existsb app]. unfold readIndex at 1.
    rewrite lookup_insert_eq. reflexivity. }
  split; [|split; [exact Hpath | split; [exact Hafter|]]].
  - rewrite Hbefore. cbn [existsb]. apply orb_true_iff. left.
    unfold sameName. apply eqb_eq. reflexivity.
  - rewrite Hafter, Hbefore. discriminate.
Qed.

End IndexMaintenance.

(** X1, at a component spelled in capitals whose entry has an old path. *)
Lemma processComponent_existing_entry_witness :
  (componentFileRel (component buttonAgain) <> indexFileRel
   /\ existsb (sameName (CM:=basicLatinCase) buttonAgain)
              (readIndex buttonStore) = true)
  /\ processComponent (CM:=basicLatinCase) buttonAgain buttonStore !! indexFileRel
     = buttonStore !! indexFileRel
  /\ readIndex (processComponent (CM:=basicLatinCase) buttonAgain buttonStore)
     = readIndex buttonStore.
Proof.
  assert (H1 : componentFileRel (component buttonAgain) <> indexFileRel)
    by (vm_compute; discriminate).
  assert (H2 : existsb (sameName (CM:=basicLatinCase) buttonAgain)
                 (readIndex buttonStore) = true).
  { unfold readIndex, buttonStore. rewrite lookup_singleton_eq. reflexivity. }
  split; [split; assumption|].
  exact (processComponent_existing_entry basicLatinCase buttonAgain buttonStore H1 H2).
Defined.
